(** * nftableslib: the L3 rule compiler and the chain store

    A shallow embedding of [nfrule_l3.go] (createL3, processAddrList,
    processAddrRange, processVersion) and of the chain store [nfChains]
    (isEqualChain, create, Create, CreateImm, Delete, DeleteImm, Sync,
    Exist), followed by the properties proved about them.

    Conventions.
    - A Go function returning [(value, error)] returns a [res]: [Ok v] for
      [(v, nil)], [Err e] for [(nil, e)], and [Panic] for a run-time panic
      (nil dereference, index out of range).
    - A nil slice and an empty slice are both the empty list.
    - A Go pointer that the code compares with [==] is a [ref]: an address
      together with the value stored there; [==] compares addresses only.
    - State that Go mutates in place is threaded explicitly.
    - The store is followed one call at a time: its mutex is not modelled. *)

From Stdlib Require Import ZArith List Strings.Byte.
From stdpp Require Import gmap strings list.

Open Scope Z_scope.
Open Scope string_scope.
Open Scope list_scope.

(** ** Errors *)

(** Go [error] values: a message built by [fmt.Errorf] or [errors.New], a
    [unix.Errno], or an error wrapping another one ([%w]). *)
Inductive error : Type :=
| ErrStr (msg : string)
| Errno (n : Z)
| ErrWrap (msg : string) (inner : error).

#[global] Instance error_eq_dec : EqDecision error.
Proof. solve_decision. Defined.

(** [unix.EBUSY] *)
Definition EBUSY : error := Errno 16.
(** [unix.ENOENT] *)
Definition ENOENT : error := Errno 2.

(** [errors.Is(err, target)]: [err] or an error it wraps is [target]. *)
Fixpoint errorsIs (err target : error) : bool :=
  bool_decide (err = target) ||
  match err with
  | ErrWrap _ inner => errorsIs inner target
  | _ => false
  end.

Inductive res (A : Type) : Type :=
| Ok (a : A)
| Err (e : error)
| Panic.
Arguments Ok {A} a.
Arguments Err {A} e.
Arguments Panic {A}.

Definition bind {A B : Type} (r : res A) (k : A -> res B) : res B :=
  match r with
  | Ok a => k a
  | Err e => Err e
  | Panic => Panic
  end.

Declare Scope res_scope.
Delimit Scope res_scope with res.
Notation "'let*' x ':=' r 'in' k" := (bind r (fun x => k))
  (at level 10, x pattern, r at level 200, k at level 200) : res_scope.
Open Scope res_scope.

(** ** Formatting *)

Definition hexDigit (d : Z) : string :=
  match d with
  | 0 => "0" | 1 => "1" | 2 => "2" | 3 => "3" | 4 => "4" | 5 => "5"
  | 6 => "6" | 7 => "7" | 8 => "8" | 9 => "9" | 10 => "a" | 11 => "b"
  | 12 => "c" | 13 => "d" | 14 => "e" | _ => "f"
  end.

(** The verb [%#02x] applied to a byte: [0x] and two hexadecimal digits. *)
Definition fmtHex02 (b : Z) : string :=
  "0x" +:+ hexDigit (b `div` 16) +:+ hexDigit (b `mod` 16).

(** ** The nftables data model (package google/nftables) *)

(** [nftables.TableFamily] is a byte. *)
Definition TableFamily : Type := Z.
Definition TableFamilyINet : TableFamily := 1.
Definition TableFamilyIPv4 : TableFamily := 2.
Definition TableFamilyARP : TableFamily := 3.
Definition TableFamilyNetdev : TableFamily := 5.
Definition TableFamilyBridge : TableFamily := 7.
Definition TableFamilyIPv6 : TableFamily := 10.

(** [nftables.SetDatatype] *)
Record SetDatatype : Type := mkSetDatatype {
  dtName : string;
  dtBytes : Z;
  dtMagic : Z
}.
Definition TypeInvalid : SetDatatype := mkSetDatatype "invalid" 0 0.
Definition TypeIPAddr : SetDatatype := mkSetDatatype "ipv4_addr" 4 7.
Definition TypeIP6Addr : SetDatatype := mkSetDatatype "ipv6_addr" 16 8.

(** [nftables.Set], the fields the compiler reads or writes. *)
Record NftSet : Type := mkNftSet {
  SetName : string;
  SetID : Z;
  KeyType : SetDatatype
}.

Definition withKeyType (set : NftSet) (kt : SetDatatype) : NftSet :=
  mkNftSet (SetName set) (SetID set) kt.

(** [nftables.SetElement]; the zero value has a nil key. *)
Record SetElement : Type := mkSetElement {
  Key : list byte;
  Val : list byte
}.
Definition zeroSetElement : SetElement := mkSetElement [] [].
Definition withKey (e : SetElement) (k : list byte) : SetElement :=
  mkSetElement k (Val e).

(** Expressions of package [expr], the ones the address matches are built
    from; [expr.Any] is the type of an expression. *)
Module expr.
Inductive CmpOp : Type :=
| CmpOpEq | CmpOpNeq | CmpOpLt | CmpOpLte | CmpOpGt | CmpOpGte.

Inductive Any : Type :=
| Payload (destRegister : Z) (offset : Z) (len : Z)
| Cmp (op : CmpOp) (register : Z) (data : list byte)
| Bitwise (sourceRegister destRegister len : Z) (mask xor : list byte)
| Lookup (sourceRegister : Z) (setName : string) (setID : Z) (invert : bool)
| Range (op : CmpOp) (register : Z) (fromData toData : list byte).
End expr.

(** [nftables.Rule], the field the compiler fills. *)
Record NftRule : Type := mkNftRule {
  Exprs : list expr.Any
}.

(** ** Addresses (Go package net) *)

(** [net.IP] is a byte slice. *)
Definition IP : Type := list byte.

Definition IPv4len : nat := 4%nat.
Definition IPv6len : nat := 16%nat.

Definition v4InV6Prefix : list byte := (replicate 10 x00 ++ [xff; xff])%list.

Definition isZeros (p : list byte) : bool :=
  forallb (fun b => Byte.eqb b x00) p.

Definition byteAt (ip : IP) (i : nat) : byte := nth i ip x00.

(** [net.IP.To4]: a 4-byte address is returned as it is, a 16-byte
    IPv4-mapped address gives its last four bytes, anything else nil. *)
Definition To4 (ip : IP) : IP :=
  if (length ip =? IPv4len)%nat then ip
  else if (length ip =? IPv6len)%nat && isZeros (take 10 ip)
          && Byte.eqb (byteAt ip 10) xff && Byte.eqb (byteAt ip 11) xff
       then take 4 (drop 12 ip)
       else [].

(** [net.IP.To16]: a 4-byte address is mapped into IPv6, a 16-byte address
    is returned as it is, anything else gives nil. *)
Definition To16 (ip : IP) : IP :=
  if (length ip =? IPv4len)%nat then (v4InV6Prefix ++ ip)%list
  else if (length ip =? IPv6len)%nat then ip
       else [].

(** [net.IPAddr] *)
Record NetIPAddr : Type := mkNetIPAddr {
  netIP : IP;
  Zone : string
}.

(** ** The rule model (package nftableslib) *)

(** [IPAddr] embeds a [*net.IPAddr]. *)
Record IPAddr : Type := mkIPAddr {
  embIPAddr : option NetIPAddr;
  CIDR : bool;
  Mask : option Z
}.

(** [IPAddrSpec]: [List] is a [[]*IPAddr], [Range] a [[2]*IPAddr]. *)
Record IPAddrSpec : Type := mkIPAddrSpec {
  List_ : list (option IPAddr);
  Range : option IPAddr * option IPAddr
}.

Record L3Rule : Type := mkL3Rule {
  Src : option IPAddrSpec;
  Dst : option IPAddrSpec;
  Version : option Z;
  Protocol : option Z
}.

(** [Rule], the fields [createL3] reads ([L4], [Meta] and [Action] are
    compiled elsewhere). *)
Record Rule : Type := mkRule {
  L3 : option L3Rule;
  Exclude : bool
}.

(** [p.IP] for [p : *IPAddr]: the promoted field of the embedded
    [*net.IPAddr]; either pointer being nil panics. *)
Definition ipOf (p : option IPAddr) : res IP :=
  match p with
  | None => Panic
  | Some a =>
      match embIPAddr a with
      | None => Panic
      | Some na => Ok (netIP na)
      end
  end.

Definition errUnknownFamily (l3proto : TableFamily) : error :=
  ErrStr ("unknown nftables.TableFamily " +:+ fmtHex02 l3proto).

(** The loop [for i := 0; i < len(list); i++ { setElements[i].Key = list[i].IP.To4() }],
    (or [To16], the conversion [conv]), started at [i] with [n] iterations
    left; [lst] is the source's [list]. *)
Fixpoint setKeys (conv : IP -> IP) (lst : list (option IPAddr))
    (n : nat) (i : nat) (setElements : list SetElement) : res (list SetElement) :=
  match n with
  | O => Ok setElements
  | S n' =>
      match lst !! i with
      | None => Panic
      | Some p =>
          match ipOf p with
          | Ok ip =>
              if decide (i < length setElements)%nat
              then setKeys conv lst n' (S i)
                     (alter (fun e => withKey e (conv ip)) i setElements)
              else Panic
          | Err e => Err e
          | Panic => Panic
          end
      end
  end.

(** Lines 16 to 46 of [createL3]: the address specification to match, the
    header offset of the address, and the set with its key type assigned. *)
Definition selectAddr (l3proto : TableFamily) (l3 : L3Rule) (set : NftSet)
  : res (IPAddrSpec * Z * NftSet) :=
  let* (ruleAddr, addrOffset, set) :=
      match Src l3 with
      | Some src =>
          if decide (l3proto = TableFamilyIPv4) then
            Ok (Some src, 12, withKeyType set TypeIPAddr)
          else if decide (l3proto = TableFamilyIPv6) then
            Ok (Some src, 8, withKeyType set TypeIP6Addr)
          else Err (errUnknownFamily l3proto)
      | None => Ok (None, 0, set)
      end in
  let* (ruleAddr, addrOffset, set) :=
      match Dst l3 with
      | Some dst =>
          if decide (l3proto = TableFamilyIPv4) then
            Ok (Some dst, 16, withKeyType set TypeIPAddr)
          else if decide (l3proto = TableFamilyIPv6) then
            Ok (Some dst, 24, withKeyType set TypeIP6Addr)
          else Err (errUnknownFamily l3proto)
      | None => Ok (ruleAddr, addrOffset, set)
      end in
  match ruleAddr with
  | None => Err (ErrStr "both source and destination are nil")
  | Some ra => Ok (ra, addrOffset, set)
  end.

Section Compiler.

(** The expression builders [nfrule_l3.go] calls; their source is not among
    the files, and they are parameters of the compiler. *)
Variable getExprForSingleIP :
  TableFamily -> Z -> option IPAddr -> bool -> res (list expr.Any).
Variable getExprForListIP :
  TableFamily -> NftSet -> Z -> bool -> res (list expr.Any).
Variable getExprForRangeIP :
  TableFamily -> Z -> option IPAddr * option IPAddr -> bool -> res (list expr.Any).
Variable getExprForIPVersion : Z -> bool -> res (list expr.Any).

Definition processAddrList (l3proto : TableFamily) (offset : Z)
    (lst : list (option IPAddr)) (excl : bool) (set : NftSet)
  : res (NftRule * list SetElement) :=
  if decide (length lst = 1%nat) then
    let* expr := getExprForSingleIP l3proto offset (nth 0 lst None) excl in
    Ok (mkNftRule expr, [])
  else
    let setElements := replicate (length lst) zeroSetElement in
    let* setElements :=
      (if decide (l3proto = TableFamilyIPv4)
       then setKeys To4 lst (length lst) 0%nat setElements
       else Ok setElements) in
    let* setElements :=
      (if decide (l3proto = TableFamilyIPv6)
       then setKeys To16 lst (length lst) 0%nat setElements
       else Ok setElements) in
    if decide (length setElements = 0%nat) then
      Err (errUnknownFamily l3proto)
    else
      let* re := getExprForListIP l3proto set offset excl in
      Ok (mkNftRule re, setElements).

Definition processAddrRange (l3proto : TableFamily) (offset : Z)
    (rng : option IPAddr * option IPAddr) (excl : bool)
  : res (NftRule * list SetElement) :=
  let* re := getExprForRangeIP l3proto offset rng excl in
  Ok (mkNftRule re, []).

Definition processVersion (version : Z) (excl : bool)
  : res (NftRule * list SetElement) :=
  let* re := getExprForIPVersion version excl in
  Ok (mkNftRule re, []).

(** Lines 47 to 54 of [createL3]: a non-empty list is compiled by
    [processAddrList], a complete range by [processAddrRange]. *)
Definition dispatchAddr (l3proto : TableFamily) (addrOffset : Z)
    (ruleAddr : IPAddrSpec) (excl : bool) (set : NftSet)
  : res (NftRule * list SetElement) :=
  if decide (length (List_ ruleAddr) ≠ 0%nat) then
    processAddrList l3proto addrOffset (List_ ruleAddr) excl set
  else
    match Range ruleAddr with
    | (Some _, Some _) =>
        processAddrRange l3proto addrOffset (Range ruleAddr) excl
    | _ => Err (ErrStr "address list, address range and verdict are empry")
    end.

(** [createL3] returns its result together with the set, whose key type
    it may have assigned. *)
Definition createL3 (l3proto : TableFamily) (rule : Rule) (set : NftSet)
  : res (NftRule * list SetElement) * NftSet :=
  match L3 rule with
  | None => (Panic, set)
  | Some l3 =>
      match Version l3 with
      | Some version => (processVersion version (Exclude rule), set)
      | None =>
          match selectAddr l3proto l3 set with
          | Err e => (Err e, set)
          | Panic => (Panic, set)
          | Ok (ruleAddr, addrOffset, set') =>
              (dispatchAddr l3proto addrOffset ruleAddr (Exclude rule) set', set')
          end
      end
  end.

End Compiler.

(** ** Chains (package google/nftables) *)

(** A pointer: the address it holds and the value stored there. *)
Record ref (A : Type) : Type := mkRef {
  addr : positive;
  deref : A
}.
Arguments mkRef {A} addr deref.
Arguments addr {A} r.
Arguments deref {A} r.

(** [p == nil] *)
Definition isNil {A : Type} (p : option A) : bool :=
  match p with None => true | Some _ => false end.

(** [p == q] on pointers: both nil, or the same address. *)
Definition ptrEq {A : Type} (p q : option (ref A)) : bool :=
  match p, q with
  | None, None => true
  | Some a, Some b => bool_decide (addr a = addr b)
  | _, _ => false
  end.

Definition ChainHook : Type := Z.
Definition ChainPriority : Type := Z.
Definition ChainType : Type := string.
Definition ChainPolicy : Type := Z.

(** The package-level pointers [ChainHookRef(unix.NF_INET_...)] and
    [ChainPriorityRef(...)]: each is allocated once, at its own address. *)
Definition ChainHookPrerouting : ref ChainHook := mkRef 1 0.
Definition ChainHookInput : ref ChainHook := mkRef 2 1.
Definition ChainHookForward : ref ChainHook := mkRef 3 2.
Definition ChainHookOutput : ref ChainHook := mkRef 4 3.
Definition ChainHookPostrouting : ref ChainHook := mkRef 5 4.
Definition ChainPriorityFirst : ref ChainPriority := mkRef 6 (-2147483648).
Definition ChainPriorityFilter : ref ChainPriority := mkRef 7 0.

Definition ChainTypeFilter : ChainType := "filter".
Definition ChainTypeRoute : ChainType := "route".
Definition ChainTypeNAT : ChainType := "nat".

(** [nftableslib.ChainPolicyAccept] and [nftables.ChainPolicyAccept] are
    both 1, the two [ChainPolicyDrop] both 0. *)
Definition ChainPolicyAccept : ChainPolicy := 1.
Definition ChainPolicyDrop : ChainPolicy := 0.

(** [ChainDeleteTimeout = time.Second * 60], a [time.Duration] in
    nanoseconds. *)
Definition Second : Z := 1000000000.
Definition Millisecond : Z := 1000000.
Definition ChainReadyTimeout : Z := Millisecond * 100.
Definition ChainDeleteTimeout : Z := Second * 60.

Record Table : Type := mkTable {
  TableName : string;
  Family : TableFamily
}.

(** [nftables.Chain]. [Hooknum] and [Priority] are pointers the store
    compares by address; [Policy] is a pointer it only dereferences. *)
Record Chain : Type := mkChain {
  Name : string;
  ChainTable : Table;
  Hooknum : option (ref ChainHook);
  Priority : option (ref ChainPriority);
  Type_ : ChainType;
  Policy : option ChainPolicy
}.

(** ** The transport (interface NetNS) *)

Inductive call : Type :=
| CallAddChain (c : Chain)
| CallDelChain (c : option Chain)
| CallFlush
| CallListChains
| CallRulesSync (chainName : string).

(** What the kernel answers: the reply to the n-th [Flush], to the n-th
    [ListChains], and to the n-th listing of a chain's rules. *)
Record Kernel : Type := mkKernel {
  flushReply : nat -> option error;
  listChainsReply : nat -> list Chain + error;
  rulesSyncReply : nat -> option error
}.

(** A connection: the kernel behind it and the calls made so far. *)
Record NetNS : Type := mkNetNS {
  kernel : Kernel;
  calls : list call
}.

Definition isFlush (c : call) : bool :=
  match c with CallFlush => true | _ => false end.
Definition isListChains (c : call) : bool :=
  match c with CallListChains => true | _ => false end.
Definition isRulesSync (c : call) : bool :=
  match c with CallRulesSync _ => true | _ => false end.

(** How many calls of one kind the connection has seen. *)
Definition countCalls (kind : call -> bool) (conn : NetNS) : nat :=
  length (List.filter kind (calls conn)).

Definition logCall (c : call) (conn : NetNS) : NetNS :=
  mkNetNS (kernel conn) (calls conn ++ [c]).

(** [conn.AddChain(c)] stages the chain and returns it. *)
Definition AddChain (c : Chain) (conn : NetNS) : option Chain * NetNS :=
  (Some c, logCall (CallAddChain c) conn).

Definition DelChain (c : option Chain) (conn : NetNS) : NetNS :=
  logCall (CallDelChain c) conn.

Definition Flush (conn : NetNS) : option error * NetNS :=
  (flushReply (kernel conn) (countCalls isFlush conn), logCall CallFlush conn).

Definition ListChains (conn : NetNS) : (list Chain + error) * NetNS :=
  (listChainsReply (kernel conn) (countCalls isListChains conn),
   logCall CallListChains conn).

(** ** The chain store (package nftableslib) *)

(** [ChainAttributes]; the fields [Type], [Hook], [Priority], [Device] and
    [Policy] carry the prefix [attr]. *)
Record ChainAttributes : Type := mkChainAttributes {
  attrType : ChainType;
  attrHook : option (ref ChainHook);
  attrPriority : option (ref ChainPriority);
  attrDevice : string;
  attrPolicy : option ChainPolicy
}.

Definition Validate (cha : ChainAttributes) : option error :=
  if decide (attrType cha = "") then
    Some (ErrStr "base chain must have type set")
  else None.

(** Modelled from the spec: the rule store of a chain, which [newRules]
    builds; its source is not among the files. The spec says a Chain owns
    its Rules store: the store is bound to the table and to the chain it
    was built for, and [newRules] never returns nil. *)
Record nfRules : Type := mkNfRules {
  rulesTable : Table;
  rulesChain : option Chain
}.

Definition newRules (t : Table) (c : option Chain) : nfRules :=
  mkNfRules t c.

(** [nfc.chains[name].Rules().Sync()]: the rules of the chain are listed
    through the connection of the store; the kernel decides the outcome. *)
Definition RulesSync (chainName : string) (conn : NetNS) : option error * NetNS :=
  (rulesSyncReply (kernel conn) (countCalls isRulesSync conn),
   logCall (CallRulesSync chainName) conn).

Record nfChain : Type := mkNfChain {
  baseChain : bool;
  chain : option Chain;
  RulesInterface : option nfRules
}.

Record nfChains : Type := mkNfChains {
  conn : NetNS;
  table : Table;
  chains : gmap string nfChain
}.

Definition withConn (nfc : nfChains) (c : NetNS) : nfChains :=
  mkNfChains c (table nfc) (chains nfc).
Definition withChains (nfc : nfChains) (m : gmap string nfChain) : nfChains :=
  mkNfChains (conn nfc) (table nfc) m.

Definition newChains (c : NetNS) (t : Table) : nfChains :=
  mkNfChains c t ∅.

Definition isEqualChain (ch : nfChain) (attributes : option ChainAttributes) : bool :=
  match chain ch with
  | None => false
  | Some c =>
      match RulesInterface ch with
      | None => false
      | Some _ =>
          if baseChain ch && isNil attributes then false
          else if negb (baseChain ch) && negb (isNil attributes) then false
          else
            match attributes with
            | None => true
            | Some a =>
                if negb (ptrEq (attrHook a) (Hooknum c))
                   || negb (bool_decide (attrType a = Type_ c))
                   || negb (ptrEq (attrPriority a) (Priority c))
                then false
                else
                  match attrPolicy a with
                  | None => true
                  | Some p =>
                      match Policy c with
                      | None => false
                      | Some q => if bool_decide (p ≠ q) then false else true
                      end
                  end
            end
      end
  end.

Definition errChainExists (name : string) (t : Table) : error :=
  ErrStr ("nftableslib: chain " +:+ name +:+ " already exist in table " +:+ TableName t).

Definition errNoChain (name : string) : error :=
  ErrStr ("chain " +:+ name +:+ " does not exists").

Definition create (name : string) (attributes : option ChainAttributes)
    (nfc : nfChains) : option error * nfChains :=
  match chains nfc !! name with
  | Some ch =>
      if isEqualChain ch attributes then (None, nfc)
      else (Some (errChainExists name (table nfc)), nfc)
  | None =>
      match attributes with
      | Some a =>
          match Validate a with
          | Some err => (Some err, nfc)
          | None =>
              let policy :=
                match attrPolicy a with
                | Some p => p
                | None => ChainPolicyAccept
                end in
              let '(c, conn') :=
                AddChain (mkChain name (table nfc) (attrHook a) (attrPriority a)
                            (attrType a) (Some policy)) (conn nfc) in
              (None,
               mkNfChains conn' (table nfc)
                 (<[name := mkNfChain true c (Some (newRules (table nfc) c))]>
                    (chains nfc)))
          end
      | None =>
          let '(c, conn') :=
            AddChain (mkChain name (table nfc) None None "" None) (conn nfc) in
          (None,
           mkNfChains conn' (table nfc)
             (<[name := mkNfChain false c (Some (newRules (table nfc) c))]>
                (chains nfc)))
      end
  end.

Definition Create (name : string) (attributes : option ChainAttributes)
    (nfc : nfChains) : option error * nfChains :=
  create name attributes nfc.

Definition CreateImm (name : string) (attributes : option ChainAttributes)
    (nfc : nfChains) : option error * nfChains :=
  match create name attributes nfc with
  | (Some err, nfc) => (Some err, nfc)
  | (None, nfc) =>
      match Flush (conn nfc) with
      | (Some err, conn') => (Some err, withConn nfc conn')
      | (None, conn') => (None, withConn nfc conn')
      end
  end.

Definition Delete (name : string) (nfc : nfChains) : option error * nfChains :=
  match chains nfc !! name with
  | Some ch =>
      let conn' := DelChain (chain ch) (conn nfc) in
      (None, mkNfChains conn' (table nfc) (delete name (chains nfc)))
  | None => (Some (errNoChain name), nfc)
  end.

(** ** Timers (Go package time) *)

Record Timer : Type := mkTimer { timerD : Z }.
Record Ticker : Type := mkTicker { tickerD : Z }.

Definition NewTimer (d : Z) : Timer := mkTimer d.
Definition NewTicker (d : Z) : Ticker := mkTicker d.

(** The case a [select] on [timeout.C] and [ticker.C] takes. *)
Inductive SelectCase : Type :=
| CaseTimeout
| CaseTick.

(** The Go runtime: which case the n-th [select] of a call takes, for the
    timer and the ticker the call waits on. *)
Definition Runtime : Type := Timer -> Ticker -> nat -> SelectCase.

(** The loop of [DeleteImm], entering its iteration [n]; [fuel] bounds the
    iterations the model follows, [None] is a loop still running when the
    fuel is spent. *)
Fixpoint deleteImmLoop (rt : Runtime) (timeout : Timer) (ticker : Ticker)
    (name : string) (ch : nfChain) (fuel : nat) (n : nat) (nfc : nfChains)
  : option (option error * nfChains) :=
  match fuel with
  | O => None
  | S fuel' =>
      let conn1 := DelChain (chain ch) (conn nfc) in
      match Flush conn1 with
      | (None, conn2) =>
          Some (None, mkNfChains conn2 (table nfc) (delete name (chains nfc)))
      | (Some err, conn2) =>
          if negb (errorsIs err EBUSY) then Some (Some err, withConn nfc conn2)
          else
            match rt timeout ticker n with
            | CaseTimeout => Some (Some err, withConn nfc conn2)
            | CaseTick =>
                deleteImmLoop rt timeout ticker name ch fuel' (S n)
                  (withConn nfc conn2)
            end
      end
  end.

Definition DeleteImm (rt : Runtime) (fuel : nat) (name : string) (nfc : nfChains)
  : option (option error * nfChains) :=
  match chains nfc !! name with
  | None => Some (Some (errNoChain name), nfc)
  | Some ch =>
      let timeout := NewTimer ChainDeleteTimeout in
      let ticker := NewTicker (ChainDeleteTimeout `quot` 10) in
      deleteImmLoop rt timeout ticker name ch fuel 0%nat nfc
  end.

Definition sameTable (c : Chain) (t : Table) : bool :=
  bool_decide (TableName (ChainTable c) = TableName t)
  && bool_decide (Family (ChainTable c) = Family t).

(** The loop of [Sync] over the chains the kernel listed. *)
Fixpoint syncLoop (cs : list Chain) (nfc : nfChains) : option error * nfChains :=
  match cs with
  | [] => (None, nfc)
  | c :: cs' =>
      if sameTable c (table nfc) then
        match chains nfc !! Name c with
        | Some _ => syncLoop cs' nfc
        | None =>
            let baseChain :=
              if negb (bool_decide (Type_ c = ""))
                 && negb (ptrEq (Hooknum c) (Some ChainHookPrerouting))
              then true else false in
            let nfc1 :=
              withChains nfc
                (<[Name c := mkNfChain baseChain (Some c)
                               (Some (newRules (table nfc) (Some c)))]>
                   (chains nfc)) in
            match RulesSync (Name c) (conn nfc1) with
            | (Some err, conn') => (Some err, withConn nfc1 conn')
            | (None, conn') => syncLoop cs' (withConn nfc1 conn')
            end
        end
      else syncLoop cs' nfc
  end.

Definition Sync (nfc : nfChains) : option error * nfChains :=
  match ListChains (conn nfc) with
  | (inr err, conn') => (Some err, withConn nfc conn')
  | (inl cs, conn') => syncLoop cs (withConn nfc conn')
  end.

(** The loop of [Exist] over the chains the kernel listed. *)
Fixpoint existLoop (name : string) (cs : list Chain) (nfc : nfChains)
  : bool * nfChains :=
  match cs with
  | [] => (false, nfc)
  | c :: cs' =>
      if bool_decide (Name c = name) then
        if bool_decide (TableName (table nfc) = TableName (ChainTable c))
           && bool_decide (Family (table nfc) = Family (ChainTable c))
        then
          match Sync nfc with
          | (None, nfc') => (true, nfc')
          | (Some _, nfc') => (false, nfc')
          end
        else existLoop name cs' nfc
      else existLoop name cs' nfc
  end.

Definition Exist (name : string) (nfc : nfChains) : bool * nfChains :=
  match chains nfc !! name with
  | Some _ => (true, nfc)
  | None =>
      match ListChains (conn nfc) with
      | (inr _, conn') => (false, withConn nfc conn')
      | (inl cs, conn') => existLoop name cs (withConn nfc conn')
      end
  end.

(** ** Reference expression builders *)

(** Modelled from the spec: the expression builders, whose source is not
    among the files. The spec says a one-element list or a range
    gives a direct inline comparison, a longer list a set-membership test
    at the byte offset of the field, that Exclude is a modifier of the
    comparison or of the membership test, and that an unknown protocol
    family is an error. *)
Definition addrLen (l3proto : TableFamily) : res Z :=
  if decide (l3proto = TableFamilyIPv4) then Ok 4
  else if decide (l3proto = TableFamilyIPv6) then Ok 16
  else Err (errUnknownFamily l3proto).

Definition normalize (l3proto : TableFamily) (ip : IP) : IP :=
  if decide (l3proto = TableFamilyIPv4) then To4 ip else To16 ip.

Definition cmpOpFor (excl : bool) : expr.CmpOp :=
  if excl then expr.CmpOpNeq else expr.CmpOpEq.

Definition modelSingleIP (l3proto : TableFamily) (offset : Z)
    (addr : option IPAddr) (excl : bool) : res (list expr.Any) :=
  let* len := addrLen l3proto in
  let* ip := ipOf addr in
  Ok [expr.Payload 1 offset len;
      expr.Cmp (cmpOpFor excl) 1 (normalize l3proto ip)].

Definition modelListIP (l3proto : TableFamily) (set : NftSet) (offset : Z)
    (excl : bool) : res (list expr.Any) :=
  let* len := addrLen l3proto in
  Ok [expr.Payload 1 offset len;
      expr.Lookup 1 (SetName set) (SetID set) excl].

Definition modelRangeIP (l3proto : TableFamily) (offset : Z)
    (rng : option IPAddr * option IPAddr) (excl : bool) : res (list expr.Any) :=
  let* len := addrLen l3proto in
  let* lo := ipOf (fst rng) in
  let* hi := ipOf (snd rng) in
  Ok [expr.Payload 1 offset len;
      expr.Range (cmpOpFor excl) 1 (normalize l3proto lo) (normalize l3proto hi)].

Definition modelIPVersion (version : Z) (excl : bool) : res (list expr.Any) :=
  Ok [expr.Payload 1 0 1; expr.Bitwise 1 1 1 [xf0] [x00];
      expr.Cmp (cmpOpFor excl) 1
        (match Byte.of_N (Z.to_N ((version * 16) `mod` 256)) with
         | Some b => [b]
         | None => []
         end)].

(** The compiler with the reference builders. *)
Definition modelProcessAddrList :=
  processAddrList modelSingleIP modelListIP.
Definition modelCreateL3 :=
  createL3 modelSingleIP modelListIP modelRangeIP modelIPVersion.

(** ** The address offsets as the specification states them *)

Inductive Direction : Type :=
| Source
| Destination.

(** The offset table of the specification: IPv4 source 12 and destination
    16, IPv6 source 8 and destination 24. *)
Definition specOffset (l3proto : TableFamily) (d : Direction) : Z :=
  match d with
  | Source => if decide (l3proto = TableFamilyIPv6) then 8 else 12
  | Destination => if decide (l3proto = TableFamilyIPv6) then 24 else 16
  end.

(** The direction an address rule matches on: the destination when [Dst] is
    set, else the source when [Src] is set. *)
Definition directionOf (l3 : L3Rule) : option Direction :=
  match Dst l3, Src l3 with
  | Some _, _ => Some Destination
  | None, Some _ => Some Source
  | None, None => None
  end.

Definition specOfDirection (l3 : L3Rule) (d : Direction) : option IPAddrSpec :=
  match d with
  | Source => Src l3
  | Destination => Dst l3
  end.

Definition keyTypeFor (l3proto : TableFamily) : SetDatatype :=
  if decide (l3proto = TableFamilyIPv6) then TypeIP6Addr else TypeIPAddr.

(** An address [To4] converts: four bytes, or sixteen bytes that are an
    IPv4-mapped IPv6 address. *)
Definition isV4 (ip : IP) : bool :=
  (length ip =? IPv4len)%nat
  || ((length ip =? IPv6len)%nat && isZeros (take 10 ip)
      && Byte.eqb (byteAt ip 10) xff && Byte.eqb (byteAt ip 11) xff).

(** An address [To16] converts: four or sixteen bytes. *)
Definition isIP (ip : IP) : bool :=
  (length ip =? IPv4len)%nat || (length ip =? IPv6len)%nat.

(** ** Sample values *)

Definition mkAddr (ip : IP) : option IPAddr :=
  Some (mkIPAddr (Some (mkNetIPAddr ip "")) false None).

(** 1.2.3.4 and 2.3.4.5 *)
Definition addrA : IP := [x01; x02; x03; x04].
Definition addrB : IP := [x02; x03; x04; x05].
(** 2001:1::1 and 2001:1::2 *)
Definition addr6A : IP := ([x20; x01; x00; x01] ++ replicate 11 x00 ++ [x01])%list.
Definition addr6B : IP := ([x20; x01; x00; x01] ++ replicate 11 x00 ++ [x02])%list.

Definition sampleSet : NftSet := mkNftSet "ipv4rule-1" 1 TypeInvalid.

Definition listSpec (l : list IP) : IPAddrSpec :=
  mkIPAddrSpec (map mkAddr l) (None, None).

Definition srcRule (l : list IP) : Rule :=
  mkRule (Some (mkL3Rule (Some (listSpec l)) None None None)) false.
Definition dstRule (l : list IP) : Rule :=
  mkRule (Some (mkL3Rule None (Some (listSpec l)) None None)) false.

(** ** The other operations of the chain store *)

Definition errChainDoesNotExist (name : string) : error :=
  ErrStr ("chain " +:+ name +:+ " does not exist").

(** The method [Chain(name)]: the rule store of a stored chain; the
    interface value it returns may be nil. *)
Definition Chain_ (name : string) (nfc : nfChains) : res (option nfRules) :=
  match chains nfc !! name with
  | Some c => Ok (RulesInterface c)
  | None => Err (errChainDoesNotExist name)
  end.

(** The test [nfc.table.Name == chain.Table.Name && nfc.table.Family ==
    chain.Table.Family] of [Exist], [Get] and [Ready]. *)
Definition tableOf (t : Table) (c : Chain) : bool :=
  bool_decide (TableName t = TableName (ChainTable c))
  && bool_decide (Family t = Family (ChainTable c)).

(** The loop of [Ready] over the chains the kernel listed. *)
Fixpoint readyLoop (name : string) (cs : list Chain) (t : Table) : bool :=
  match cs with
  | [] => false
  | c :: cs' =>
      if tableOf t c then
        if bool_decide (name = Name c) then true
        else readyLoop name cs' t
      else readyLoop name cs' t
  end.

(** [Ready(name)]; with an error Go returns [false] beside it. *)
Definition Ready (name : string) (nfc : nfChains) : res bool * nfChains :=
  match ListChains (conn nfc) with
  | (inr err, conn') => (Err err, withConn nfc conn')
  | (inl cs, conn') => (Ok (readyLoop name cs (table nfc)), withConn nfc conn')
  end.

Section ErrorText.

(** The text of a [unix.Errno], a table of the operating system. *)
Variable errnoText : Z -> string.

(** [err.Error()], which the verb [%+v] prints: a wrapping error carries
    its whole text. *)
Definition errorText (err : error) : string :=
  match err with
  | ErrStr msg => msg
  | Errno n => errnoText n
  | ErrWrap msg _ => msg
  end.

Definition errGetSync (c : Chain) (err : error) : error :=
  ErrStr ("Found chain in table " +:+ TableName (ChainTable c)
          +:+ " which was missing in the store, failed to add it with error: "
          +:+ errorText err).

(** The loop of [Get] over the chains the kernel listed; [chainNames] is
    the slice built so far. *)
Fixpoint getLoop (cs : list Chain) (chainNames : list string) (nfc : nfChains)
  : res (list string) * nfChains :=
  match cs with
  | [] => (Ok chainNames, nfc)
  | c :: cs' =>
      if tableOf (table nfc) c then
        match chains nfc !! Name c with
        | Some _ => getLoop cs' (chainNames ++ [Name c]) nfc
        | None =>
            match Sync nfc with
            | (Some err, nfc') => (Err (errGetSync c err), nfc')
            | (None, nfc') => getLoop cs' (chainNames ++ [Name c]) nfc'
            end
        end
      else getLoop cs' chainNames nfc
  end.

Definition Get (nfc : nfChains) : res (list string) * nfChains :=
  match ListChains (conn nfc) with
  | (inr err, conn') => (Err err, withConn nfc conn')
  | (inl cs, conn') => getLoop cs [] (withConn nfc conn')
  end.

End ErrorText.

(** ** The shape of a stored chain *)

(** A stored object as [create] and [Sync] build it: it holds a chain and
    a rule store, the chain is named as its key and belongs to the table
    of the store, and a base chain has a type. *)
Definition wfEntry (t : Table) (name : string) (ch : nfChain) : Prop :=
  exists c r,
    chain ch = Some c /\ RulesInterface ch = Some r
    /\ Name c = name /\ sameTable c t = true
    /\ (baseChain ch = true -> Type_ c <> "").

Definition wfStore (nfc : nfChains) : Prop :=
  forall name ch, chains nfc !! name = Some ch -> wfEntry (table nfc) name ch.

(** ** Observations on a run of the store *)

(** The reply the kernel gives to the k-th [Flush] issued from now on. *)
Definition flushAt (nfc : nfChains) (k : nat) : option error :=
  flushReply (kernel (conn nfc)) (countCalls isFlush (conn nfc) + k)%nat.

(** That reply is an error that is, or wraps, [EBUSY]. *)
Definition busyAt (nfc : nfChains) (k : nat) : bool :=
  match flushAt nfc k with
  | Some err => errorsIs err EBUSY
  | None => false
  end.

(** The timer and the ticker [DeleteImm] waits on. *)
Definition deleteTimer : Timer := NewTimer ChainDeleteTimeout.
Definition deleteTicker : Ticker := NewTicker (ChainDeleteTimeout `quot` 10).

(** The k-th [select] of a [DeleteImm] call receives from the ticker. *)
Definition tickAt (rt : Runtime) (k : nat) : bool :=
  match rt deleteTimer deleteTicker k with
  | CaseTick => true
  | CaseTimeout => false
  end.

(** The calls of [n] delete attempts: a delete request and a commit each. *)
Fixpoint attempts (c : option Chain) (n : nat) : list call :=
  match n with
  | O => []
  | S n' => CallDelChain c :: CallFlush :: attempts c n'
  end.

(** The listing the kernel gives to the next [ListChains]. *)
Definition nextListing (nfc : nfChains) : list Chain + error :=
  listChainsReply (kernel (conn nfc)) (countCalls isListChains (conn nfc)).

(** The tag [Sync] gives a chain it adds: base when the chain has a type
    and its hook pointer is not [ChainHookPrerouting]. *)
Definition syncTag (c : Chain) : bool :=
  negb (bool_decide (Type_ c = ""))
  && negb (ptrEq (Hooknum c) (Some ChainHookPrerouting)).

(** The object [Sync] stores for a kernel chain of table [t]. *)
Definition syncEntry (t : Table) (c : Chain) : nfChain :=
  mkNfChain (syncTag c) (Some c) (Some (newRules t (Some c))).

(** ** Sample stores *)

Definition sampleTable : Table := mkTable "ipv4table" TableFamilyIPv4.

(** A kernel that accepts every commit and lists no chain. *)
Definition quietKernel : Kernel :=
  mkKernel (fun _ => None) (fun _ => inl []) (fun _ => None).

(** A kernel that refuses every commit with [err]. *)
Definition refusingKernel (err : error) : Kernel :=
  mkKernel (fun _ => Some err) (fun _ => inl []) (fun _ => None).

(** A kernel that is busy for the first [n] commits and then accepts. *)
Definition busyKernel (n : nat) : Kernel :=
  mkKernel (fun k => if (k <? n)%nat then Some EBUSY else None)
    (fun _ => inl []) (fun _ => None).

(** A kernel that lists the chains [cs] and answers the i-th listing of
    rules with [rs i]. *)
Definition listingKernel (cs : list Chain) (rs : nat -> option error) : Kernel :=
  mkKernel (fun _ => None) (fun _ => inl cs) rs.

(** A kernel whose listing of chains fails with [err]. *)
Definition unreachableKernel (err : error) : Kernel :=
  mkKernel (fun _ => None) (fun _ => inr err) (fun _ => None).

Definition emptyStore (k : Kernel) : nfChains :=
  newChains (mkNetNS k []) sampleTable.

(** A runtime whose ticker always fires first, and one whose timer does. *)
Definition alwaysTick : Runtime := fun _ _ _ => CaseTick.
Definition alwaysTimeout : Runtime := fun _ _ _ => CaseTimeout.

Definition attrsDrop : ChainAttributes :=
  mkChainAttributes ChainTypeFilter (Some ChainHookInput)
    (Some ChainPriorityFirst) "" (Some ChainPolicyDrop).
Definition attrsNoPolicy : ChainAttributes :=
  mkChainAttributes ChainTypeFilter (Some ChainHookInput)
    (Some ChainPriorityFirst) "" None.
Definition attrsNoType : ChainAttributes :=
  mkChainAttributes "" (Some ChainHookInput) (Some ChainPriorityFirst) "" None.
Definition attrsNATPrerouting : ChainAttributes :=
  mkChainAttributes ChainTypeNAT (Some ChainHookPrerouting)
    (Some ChainPriorityFirst) "" None.

(** Kernel chains of the sample table: a NAT chain on the prerouting hook,
    held through the package's own [ChainHookPrerouting] pointer, and two
    regular chains. *)
Definition kernelChainNAT : Chain :=
  mkChain "chain-2" sampleTable (Some ChainHookPrerouting)
    (Some ChainPriorityFirst) ChainTypeNAT (Some ChainPolicyAccept).
Definition kernelChainB : Chain :=
  mkChain "B" sampleTable None None "" None.
Definition kernelChainC : Chain :=
  mkChain "C" sampleTable None None "" None.

(** The store holding the regular chain [name] and nothing else. *)
Definition storeWith (k : Kernel) (name : string) : nfChains :=
  snd (create name None (emptyStore k)).

(** * Properties of the compiler *)

Lemma To4_length (ip : IP) : isV4 ip = true -> length (To4 ip) = 4%nat.
Proof.
  unfold isV4, To4, IPv4len, IPv6len.
  destruct (length ip =? 4)%nat eqn:E4; simpl.
  - intros _. now apply Nat.eqb_eq.
  - intros H. rewrite H.
    apply andb_prop in H as [H _]. apply andb_prop in H as [H _].
    apply andb_prop in H as [H _]. apply Nat.eqb_eq in H.
    rewrite length_take, length_drop. lia.
Qed.

Lemma To16_length (ip : IP) : isIP ip = true -> length (To16 ip) = 16%nat.
Proof.
  unfold isIP, To16, IPv4len, IPv6len.
  destruct (length ip =? 4)%nat eqn:E4; simpl.
  - intros _. apply Nat.eqb_eq in E4. cbn [length]. lia.
  - intros H. rewrite H. now apply Nat.eqb_eq.
Qed.

(** The key loop, run over a list whose entries all carry an address,
    fills the elements it has not reached yet, one per entry and in
    order. *)
Lemma setKeys_fills (conv : IP -> IP) (lst : list (option IPAddr)) (ips : list IP) :
  Forall2 (fun p ip => ipOf p = Ok ip) lst ips ->
  forall (n i : nat),
    (i + n = length ips)%nat ->
    setKeys conv lst n i
      (map (fun ip => mkSetElement (conv ip) []) (take i ips)
         ++ replicate n zeroSetElement)
    = Ok (map (fun ip => mkSetElement (conv ip) []) ips).
Proof.
  intros HF n. induction n as [|n IH]; intros i Hlen.
  - simpl. rewrite app_nil_r, take_ge by lia. reflexivity.
  - assert (Hi : (i < length ips)%nat) by lia.
    destruct (lookup_lt_is_Some_2 ips i Hi) as [ip Hip].
    destruct (Forall2_lookup_r _ _ _ _ _ HF Hip) as (p & Hp & Hok).
    cbn [setKeys]. rewrite Hp, Hok.
    assert (Hpre : length (map (fun ip => mkSetElement (conv ip) []) (take i ips)) = i).
    { rewrite length_map, length_take. lia. }
    destruct (decide _) as [_|Hn].
    2:{ exfalso. apply Hn. rewrite length_app, Hpre. simpl. lia. }
    replace (alter _ i _) with
      (map (fun ip => mkSetElement (conv ip) []) (take (S i) ips)
         ++ replicate n zeroSetElement).
    { apply IH. lia. }
    rewrite (take_S_r _ _ _ Hip), map_app, <- app_assoc. simpl.
    set (pre := map _ (take i ips)) in *.
    set (f := fun e : SetElement => withKey e (conv ip)).
    symmetry.
    transitivity
      (alter f (length pre + 0)%nat (pre ++ zeroSetElement :: replicate n zeroSetElement)).
    + rewrite Hpre, Nat.add_0_r. reflexivity.
    + rewrite alter_app_r. reflexivity.
Qed.

Lemma selectAddr_direction (l3proto : TableFamily) (l3 : L3Rule) (set : NftSet)
    (d : Direction) :
  l3proto = TableFamilyIPv4 \/ l3proto = TableFamilyIPv6 ->
  directionOf l3 = Some d ->
  exists ruleAddr,
    specOfDirection l3 d = Some ruleAddr /\
    selectAddr l3proto l3 set
    = Ok (ruleAddr, specOffset l3proto d, withKeyType set (keyTypeFor l3proto)).
Proof.
  intros Hfam Hd. unfold directionOf in Hd. unfold selectAddr, specOffset, keyTypeFor.
  destruct (Dst l3) as [dst|] eqn:HD, (Src l3) as [src|] eqn:HS;
    inversion Hd; subst d; cbn [specOfDirection]; rewrite ?HD, ?HS;
    destruct Hfam as [-> | ->]; eexists; (split; [reflexivity|]);
    reflexivity.
Qed.

Lemma selectAddr_unknown_family (l3proto : TableFamily) (l3 : L3Rule) (set : NftSet)
    (d : Direction) :
  l3proto <> TableFamilyIPv4 -> l3proto <> TableFamilyIPv6 ->
  directionOf l3 = Some d ->
  selectAddr l3proto l3 set = Err (errUnknownFamily l3proto).
Proof.
  intros H4 H6 Hd. unfold directionOf in Hd. unfold selectAddr.
  destruct (Dst l3), (Src l3); try discriminate; simpl;
    repeat (destruct (decide _); try contradiction); reflexivity.
Qed.

Section CompilerProperties.

Variable getExprForSingleIP :
  TableFamily -> Z -> option IPAddr -> bool -> res (list expr.Any).
Variable getExprForListIP :
  TableFamily -> NftSet -> Z -> bool -> res (list expr.Any).
Variable getExprForRangeIP :
  TableFamily -> Z -> option IPAddr * option IPAddr -> bool -> res (list expr.Any).
Variable getExprForIPVersion : Z -> bool -> res (list expr.Any).

Abbreviation processAddrList' :=
  (processAddrList getExprForSingleIP getExprForListIP).
Abbreviation dispatchAddr' :=
  (dispatchAddr getExprForSingleIP getExprForListIP getExprForRangeIP).
Abbreviation createL3' :=
  (createL3 getExprForSingleIP getExprForListIP getExprForRangeIP
     getExprForIPVersion).

(** An address rule under IPv4 or IPv6 is compiled at the offset of the
    specification's table, for the direction the rule matches on. *)
Lemma createL3_address (l3proto : TableFamily) (rule : Rule) (l3 : L3Rule)
    (set : NftSet) (d : Direction) :
  l3proto = TableFamilyIPv4 \/ l3proto = TableFamilyIPv6 ->
  L3 rule = Some l3 -> Version l3 = None ->
  directionOf l3 = Some d ->
  exists ruleAddr,
    specOfDirection l3 d = Some ruleAddr /\
    createL3' l3proto rule set
    = (dispatchAddr' l3proto (specOffset l3proto d) ruleAddr (Exclude rule)
         (withKeyType set (keyTypeFor l3proto)),
       withKeyType set (keyTypeFor l3proto)).
Proof.
  intros Hfam HL3 HV Hd.
  destruct (selectAddr_direction l3proto l3 set d Hfam Hd) as (ra & Hra & Hsel).
  exists ra. split; [exact Hra|].
  unfold createL3. rewrite HL3, HV, Hsel. reflexivity.
Qed.

Lemma processAddrList_single (l3proto : TableFamily) (offset : Z)
    (a : option IPAddr) (excl : bool) (set : NftSet) :
  processAddrList' l3proto offset [a] excl set
  = match getExprForSingleIP l3proto offset a excl with
    | Ok e => Ok (mkNftRule e, [])
    | Err err => Err err
    | Panic => Panic
    end.
Proof. reflexivity. Qed.

Lemma processAddrList_many (l3proto : TableFamily) (conv : IP -> IP)
    (offset : Z) (lst : list (option IPAddr)) (ips : list IP) (excl : bool)
    (set : NftSet) :
  (l3proto = TableFamilyIPv4 /\ conv = To4)
  \/ (l3proto = TableFamilyIPv6 /\ conv = To16) ->
  (2 <= length lst)%nat ->
  Forall2 (fun p ip => ipOf p = Ok ip) lst ips ->
  processAddrList' l3proto offset lst excl set
  = match getExprForListIP l3proto set offset excl with
    | Ok re => Ok (mkNftRule re, map (fun ip => mkSetElement (conv ip) []) ips)
    | Err err => Err err
    | Panic => Panic
    end.
Proof.
  intros Hfam Hlen HF.
  pose proof (Forall2_length _ _ _ HF) as Hl.
  pose proof (setKeys_fills conv lst ips HF (length lst) 0%nat) as Hfill.
  rewrite take_0 in Hfill. simpl in Hfill. specialize (Hfill Hl).
  unfold processAddrList.
  destruct (decide (length lst = 1%nat)) as [H1|_]; [lia|].
  destruct Hfam as [[-> ->] | [-> ->]].
  - destruct (decide (TableFamilyIPv4 = TableFamilyIPv4)); [|contradiction].
    rewrite Hfill. cbn [bind].
    destruct (decide (TableFamilyIPv4 = TableFamilyIPv6)); [discriminate|].
    cbn [bind]. rewrite length_map.
    destruct (decide (length ips = 0%nat)); [lia|]. reflexivity.
  - destruct (decide (TableFamilyIPv6 = TableFamilyIPv4)); [discriminate|].
    cbn [bind].
    destruct (decide (TableFamilyIPv6 = TableFamilyIPv6)); [|contradiction].
    rewrite Hfill. cbn [bind]. rewrite length_map.
    destruct (decide (length ips = 0%nat)); [lia|]. reflexivity.
Qed.

(** C1 (amended). Under IPv4 or IPv6, an address rule whose selected
    IPAddrSpec has a List of exactly one entry compiles to no set element
    and, unless the single-address expression builder fails (its failure
    is then the result), to a rule whose expressions are that builder's
    inline comparison at the offset of the family and direction. A List
    of at least two entries that all carry an address compiles, unless
    the list expression builder fails, to exactly one set element per
    entry, in order, whose key is the To4 form of the address under IPv4
    and its To16 form under IPv6: 4 bytes when every address is a 4-byte
    or IPv4-mapped address, 16 bytes when every address is 4 or 16 bytes
    long. *)
Theorem C1_list_compilation (l3proto : TableFamily) (rule : Rule) (l3 : L3Rule)
    (set : NftSet) (d : Direction) (ruleAddr : IPAddrSpec) :
  l3proto = TableFamilyIPv4 \/ l3proto = TableFamilyIPv6 ->
  L3 rule = Some l3 -> Version l3 = None ->
  directionOf l3 = Some d ->
  specOfDirection l3 d = Some ruleAddr ->
  (forall a : option IPAddr,
      List_ ruleAddr = [a] ->
      createL3' l3proto rule set
      = (match getExprForSingleIP l3proto (specOffset l3proto d) a (Exclude rule) with
         | Ok e => Ok (mkNftRule e, [])
         | Err err => Err err
         | Panic => Panic
         end,
         withKeyType set (keyTypeFor l3proto)))
  /\
  (forall (ips : list IP) (conv : IP -> IP),
      (2 <= length (List_ ruleAddr))%nat ->
      Forall2 (fun p ip => ipOf p = Ok ip) (List_ ruleAddr) ips ->
      (l3proto = TableFamilyIPv4 /\ conv = To4)
      \/ (l3proto = TableFamilyIPv6 /\ conv = To16) ->
      createL3' l3proto rule set
      = (match getExprForListIP l3proto (withKeyType set (keyTypeFor l3proto))
                 (specOffset l3proto d) (Exclude rule) with
         | Ok re => Ok (mkNftRule re, map (fun ip => mkSetElement (conv ip) []) ips)
         | Err err => Err err
         | Panic => Panic
         end,
         withKeyType set (keyTypeFor l3proto))
      /\ length (map (fun ip => mkSetElement (conv ip) []) ips)
         = length (List_ ruleAddr)
      /\ (l3proto = TableFamilyIPv4 ->
          Forall (fun ip => isV4 ip = true) ips ->
          Forall (fun e => length (Key e) = 4%nat)
            (map (fun ip => mkSetElement (conv ip) []) ips))
      /\ (l3proto = TableFamilyIPv6 ->
          Forall (fun ip => isIP ip = true) ips ->
          Forall (fun e => length (Key e) = 16%nat)
            (map (fun ip => mkSetElement (conv ip) []) ips))).
Proof.
  intros Hfam HL3 HV Hd Hspec.
  destruct (createL3_address l3proto rule l3 set d Hfam HL3 HV Hd)
    as (ra & Hra & Hc).
  rewrite Hspec in Hra. injection Hra as <-.
  split.
  - intros a Ha. rewrite Hc. f_equal.
    unfold dispatchAddr. rewrite Ha. simpl.
    apply processAddrList_single.
  - intros ips conv Hlen HF Hconv.
    split; [|split; [|split]].
    + rewrite Hc. f_equal. unfold dispatchAddr.
      destruct (decide (length (List_ ruleAddr) ≠ 0%nat)) as [_|Hn]; [|lia].
      now apply processAddrList_many.
    + rewrite length_map. symmetry. exact (Forall2_length _ _ _ HF).
    + intros H4 Hv4. destruct Hconv as [[_ ->] | [H6 _]].
      2:{ rewrite H4 in H6. discriminate. }
      apply Forall_map. eapply Forall_impl; [exact Hv4|].
      intros ip Hip. simpl. now apply To4_length.
    + intros H6 Hv6. destruct Hconv as [[H4 _] | [_ ->]].
      1:{ rewrite H6 in H4. discriminate. }
      apply Forall_map. eapply Forall_impl; [exact Hv6|].
      intros ip Hip. simpl. now apply To16_length.
Qed.

(** C2 (amended). For a rule with an address specification, no Version,
    and family IPv4 or IPv6, the header offset of the address match is
    the entry of the offset table for the family and the direction alone
    (the destination when Dst is set): IPv4 source 12 and destination 16,
    IPv6 source 8 and destination 24. Source and destination differ in
    each family, and the IPv6 offsets differ from the IPv4 ones: the
    destination offset is larger under IPv6, the source offset
    smaller. *)
Theorem C2_address_offsets (l3proto : TableFamily) (rule : Rule) (l3 : L3Rule)
    (set : NftSet) (d : Direction) :
  l3proto = TableFamilyIPv4 \/ l3proto = TableFamilyIPv6 ->
  L3 rule = Some l3 -> Version l3 = None ->
  directionOf l3 = Some d ->
  (exists ruleAddr,
      specOfDirection l3 d = Some ruleAddr /\
      createL3' l3proto rule set
      = (dispatchAddr' l3proto (specOffset l3proto d) ruleAddr (Exclude rule)
           (withKeyType set (keyTypeFor l3proto)),
         withKeyType set (keyTypeFor l3proto)))
  /\ specOffset TableFamilyIPv4 Source = 12
  /\ specOffset TableFamilyIPv4 Destination = 16
  /\ specOffset TableFamilyIPv6 Source = 8
  /\ specOffset TableFamilyIPv6 Destination = 24
  /\ specOffset l3proto Source <> specOffset l3proto Destination
  /\ specOffset TableFamilyIPv6 Source <> specOffset TableFamilyIPv4 Source
  /\ specOffset TableFamilyIPv6 Destination <> specOffset TableFamilyIPv4 Destination
  /\ specOffset TableFamilyIPv6 Destination > specOffset TableFamilyIPv4 Destination
  /\ specOffset TableFamilyIPv6 Source < specOffset TableFamilyIPv4 Source.
Proof.
  intros Hfam HL3 HV Hd.
  split; [now apply createL3_address|].
  repeat split; try reflexivity; try discriminate.
  destruct Hfam as [-> | ->]; discriminate.
Qed.

(** C8. With no Version and both Src and Dst set, createL3 returns what
    it returns for the same rule with Src nil, rule expressions, set
    elements and key type of the set alike: under IPv4 and IPv6 the Dst
    specification is compiled at the destination offset. *)
Theorem C8_dst_overrides_src (l3proto : TableFamily) (src dst : IPAddrSpec)
    (protocol : option Z) (excl : bool) (set : NftSet) :
  createL3' l3proto (mkRule (Some (mkL3Rule (Some src) (Some dst) None protocol)) excl) set
  = createL3' l3proto (mkRule (Some (mkL3Rule None (Some dst) None protocol)) excl) set
  /\ createL3' TableFamilyIPv4
       (mkRule (Some (mkL3Rule (Some src) (Some dst) None protocol)) excl) set
     = (dispatchAddr' TableFamilyIPv4 16 dst excl (withKeyType set TypeIPAddr),
        withKeyType set TypeIPAddr)
  /\ createL3' TableFamilyIPv6
       (mkRule (Some (mkL3Rule (Some src) (Some dst) None protocol)) excl) set
     = (dispatchAddr' TableFamilyIPv6 24 dst excl (withKeyType set TypeIP6Addr),
        withKeyType set TypeIP6Addr).
Proof.
  split; [|split; reflexivity].
  unfold createL3, selectAddr. cbn [L3 Version Src Dst Exclude].
  destruct (decide (l3proto = TableFamilyIPv4)) as [->|H4]; [reflexivity|].
  destruct (decide (l3proto = TableFamilyIPv6)) as [->|H6]; reflexivity.
Qed.

End CompilerProperties.

(** C1, at 1.2.3.4 and 2.3.4.5 as destinations under IPv4, with the
    reference builders: two 4-byte set elements for the list of two, an
    inline comparison and no set element for the list of one. *)
Lemma C1_list_compilation_witness :
  modelCreateL3 TableFamilyIPv4 (dstRule [addrA; addrB]) sampleSet
  = (Ok (mkNftRule [expr.Payload 1 16 4; expr.Lookup 1 "ipv4rule-1" 1 false],
         [mkSetElement addrA []; mkSetElement addrB []]),
     withKeyType sampleSet TypeIPAddr)
  /\ modelCreateL3 TableFamilyIPv4 (dstRule [addrA]) sampleSet
     = (Ok (mkNftRule [expr.Payload 1 16 4; expr.Cmp expr.CmpOpEq 1 addrA], []),
        withKeyType sampleSet TypeIPAddr).
Proof.
  split.
  - destruct (C1_list_compilation modelSingleIP modelListIP modelRangeIP
                modelIPVersion TableFamilyIPv4 (dstRule [addrA; addrB])
                (mkL3Rule None (Some (listSpec [addrA; addrB])) None None)
                sampleSet Destination (listSpec [addrA; addrB])
                (or_introl eq_refl) eq_refl eq_refl eq_refl eq_refl) as [_ H].
    destruct (H [addrA; addrB] To4) as [Hc _].
    + simpl. lia.
    + repeat constructor.
    + left. split; reflexivity.
    + exact Hc.
  - destruct (C1_list_compilation modelSingleIP modelListIP modelRangeIP
                modelIPVersion TableFamilyIPv4 (dstRule [addrA])
                (mkL3Rule None (Some (listSpec [addrA])) None None)
                sampleSet Destination (listSpec [addrA])
                (or_introl eq_refl) eq_refl eq_refl eq_refl eq_refl) as [H _].
    exact (H (mkAddr addrA) eq_refl).
Defined.

(** C1 as stated fails. A one-entry list under the inet family compiles
    to an error, not to a rule; a list of two IPv6 addresses under IPv4
    gives two set elements whose keys are empty, not 4 bytes long; and a
    list with a nil entry makes the key loop panic. *)
Lemma C1_counterexample :
  modelCreateL3 TableFamilyINet (srcRule [addrA]) sampleSet
  = (Err (ErrStr "unknown nftables.TableFamily 0x01"), sampleSet)
  /\ setKeys To4 (map mkAddr [addr6A; addr6B]) 2 0 (replicate 2 zeroSetElement)
     = Ok [mkSetElement [] []; mkSetElement [] []]
  /\ setKeys To4 [mkAddr addrA; None] 2 0 (replicate 2 zeroSetElement) = Panic
  /\ modelCreateL3 TableFamilyIPv4 (srcRule [addr6A; addr6B]) sampleSet
     = (Ok (mkNftRule [expr.Payload 1 12 4; expr.Lookup 1 "ipv4rule-1" 1 false],
            [mkSetElement [] []; mkSetElement [] []]),
        withKeyType sampleSet TypeIPAddr).
Proof. repeat split. Qed.

(** C2, at a rule matching the destination 1.2.3.4 under IPv4. *)
Lemma C2_address_offsets_witness :
  modelCreateL3 TableFamilyIPv4 (dstRule [addrA]) sampleSet
  = (Ok (mkNftRule [expr.Payload 1 16 4; expr.Cmp expr.CmpOpEq 1 addrA], []),
     withKeyType sampleSet TypeIPAddr).
Proof.
  destruct (C2_address_offsets modelSingleIP modelListIP modelRangeIP
              modelIPVersion TableFamilyIPv4 (dstRule [addrA])
              (mkL3Rule None (Some (listSpec [addrA])) None None)
              sampleSet Destination
              (or_introl eq_refl) eq_refl eq_refl eq_refl)
    as [(ra & Hra & Hc) _].
  injection Hra as <-. exact Hc.
Defined.

(** C2 as stated fails: for the same source rule, the offset selected
    under IPv6 is 8 and the one selected under IPv4 is 12, so the IPv6
    source offset is not the larger one. *)
Lemma C2_counterexample :
  selectAddr TableFamilyIPv4
    (mkL3Rule (Some (listSpec [addrA])) None None None) sampleSet
  = Ok (listSpec [addrA], 12, withKeyType sampleSet TypeIPAddr)
  /\ selectAddr TableFamilyIPv6
       (mkL3Rule (Some (listSpec [addrA])) None None None) sampleSet
     = Ok (listSpec [addrA], 8, withKeyType sampleSet TypeIP6Addr)
  /\ ~ (8 > 12).
Proof. repeat split. intros H. discriminate H. Qed.

(** * Properties of the chain store *)

Lemma ptrEq_refl {A : Type} (p : option (ref A)) : ptrEq p p = true.
Proof. destruct p; simpl; [now apply bool_decide_eq_true|reflexivity]. Qed.

(** What [isEqualChain] requires of a stored chain and requested
    attributes it accepts. *)
Lemma isEqualChain_true (ch : nfChain) (attributes : option ChainAttributes) :
  isEqualChain ch attributes = true ->
  baseChain ch = negb (isNil attributes)
  /\ forall a, attributes = Some a ->
       exists c, chain ch = Some c
         /\ ptrEq (attrHook a) (Hooknum c) = true
         /\ attrType a = Type_ c
         /\ ptrEq (attrPriority a) (Priority c) = true
         /\ (forall p, attrPolicy a = Some p -> Policy c = Some p).
Proof.
  unfold isEqualChain.
  destruct (chain ch) as [c|]; [|discriminate].
  destruct (RulesInterface ch); [|discriminate].
  destruct (baseChain ch), attributes as [a|]; simpl; try discriminate.
  - destruct (ptrEq (attrHook a) (Hooknum c)) eqn:HH; simpl; [|discriminate].
    destruct (bool_decide (attrType a = Type_ c)) eqn:HT; simpl; [|discriminate].
    destruct (ptrEq (attrPriority a) (Priority c)) eqn:HP; simpl; [|discriminate].
    apply bool_decide_eq_true in HT.
    intros H. split; [reflexivity|].
    intros a' [= <-]. exists c.
    split; [reflexivity|]. split; [exact HH|].
    split; [exact HT|]. split; [exact HP|].
    intros p Hp. rewrite Hp in H.
    destruct (Policy c) as [q|]; [|discriminate].
    destruct (bool_decide (p ≠ q)) eqn:Hpq; [discriminate|].
    apply bool_decide_eq_false in Hpq. f_equal.
    destruct (decide (p = q)); [congruence|contradiction].
  - intros _. split; [reflexivity|]. intros a [=].
Qed.

(** The chain [create] stores is equal, for [isEqualChain], to the
    attributes it was created from. *)
Lemma isEqualChain_created (name : string) (t : Table)
    (attributes : option ChainAttributes) :
  isEqualChain
    (match attributes with
     | Some a =>
         mkNfChain true
           (Some (mkChain name t (attrHook a) (attrPriority a) (attrType a)
                    (Some (match attrPolicy a with
                           | Some p => p
                           | None => ChainPolicyAccept
                           end))))
           (Some (newRules t
                    (Some (mkChain name t (attrHook a) (attrPriority a) (attrType a)
                             (Some (match attrPolicy a with
                                    | Some p => p
                                    | None => ChainPolicyAccept
                                    end))))))
     | None =>
         mkNfChain false (Some (mkChain name t None None "" None))
           (Some (newRules t (Some (mkChain name t None None "" None))))
     end)
    attributes = true.
Proof.
  destruct attributes as [a|]; [|reflexivity].
  unfold isEqualChain. simpl. rewrite !ptrEq_refl.
  rewrite bool_decide_eq_true_2 by reflexivity. simpl.
  destruct (attrPolicy a) as [p|]; [|reflexivity].
  rewrite bool_decide_eq_false_2; [reflexivity|]. intros H. now apply H.
Qed.

(** A failing [create] leaves the store as it was. *)
Lemma create_error_unchanged (name : string) (attributes : option ChainAttributes)
    (nfc nfc1 : nfChains) (err : error) :
  create name attributes nfc = (Some err, nfc1) -> nfc1 = nfc.
Proof.
  unfold create.
  destruct (chains nfc !! name) as [ch|].
  - destruct (isEqualChain ch attributes); intros [= _ <-]; reflexivity.
  - destruct attributes as [a|]; [|discriminate].
    destruct (Validate a); [|discriminate]. intros [= _ <-]. reflexivity.
Qed.

(** After a successful [create] the name is in the store, bound to a chain
    equal to the attributes; the other names are as before. *)
Lemma create_ok (name : string) (attributes : option ChainAttributes)
    (nfc nfc1 : nfChains) :
  create name attributes nfc = (None, nfc1) ->
  table nfc1 = table nfc
  /\ (exists ch, chains nfc1 !! name = Some ch /\ isEqualChain ch attributes = true)
  /\ (forall other, other <> name -> chains nfc1 !! other = chains nfc !! other)
  /\ (forall ch, chains nfc !! name = Some ch -> nfc1 = nfc).
Proof.
  unfold create.
  destruct (chains nfc !! name) as [ch|] eqn:Hl.
  - destruct (isEqualChain ch attributes) eqn:He; [|discriminate].
    intros [= <-]. repeat split; eauto.
  - destruct attributes as [a|].
    + destruct (Validate a); [discriminate|]. simpl. intros [= <-]. simpl.
      repeat split.
      * eexists. split; [apply lookup_insert_eq|].
        exact (isEqualChain_created name (table nfc) (Some a)).
      * intros other Ho. now apply lookup_insert_ne.
      * intros ch [=].
    + simpl. intros [= <-]. simpl. repeat split.
      * eexists. split; [apply lookup_insert_eq|]. reflexivity.
      * intros other Ho. now apply lookup_insert_ne.
      * intros ch [=].
Qed.

(** C3 (amended). When Create(name, attrs) succeeds, a second call with
    the same attrs succeeds too and leaves the store as the first call
    left it, with one object stored for the name and every other name as
    before. A later call with attrs that isEqualChain rejects for the
    stored object returns the conflict error and leaves the store
    unchanged. For isEqualChain to accept, the base or regular tag must
    match and, for a base chain, hook and priority (as pointers), and type
    must match; the policy must match only when the requested attributes
    name one. *)
Theorem C3_create_idempotent (name : string) (attributes : option ChainAttributes)
    (nfc nfc1 : nfChains) :
  Create name attributes nfc = (None, nfc1) ->
  Create name attributes nfc1 = (None, nfc1)
  /\ is_Some (chains nfc1 !! name)
  /\ (forall other, other <> name -> chains nfc1 !! other = chains nfc !! other)
  /\ (forall ch attributes',
         chains nfc1 !! name = Some ch ->
         isEqualChain ch attributes' = false ->
         Create name attributes' nfc1
         = (Some (errChainExists name (table nfc1)), nfc1))
  /\ (forall ch attributes',
         isEqualChain ch attributes' = true ->
         baseChain ch = negb (isNil attributes')
         /\ forall a, attributes' = Some a ->
              exists c, chain ch = Some c
                /\ ptrEq (attrHook a) (Hooknum c) = true
                /\ attrType a = Type_ c
                /\ ptrEq (attrPriority a) (Priority c) = true
                /\ (forall p, attrPolicy a = Some p -> Policy c = Some p)).
Proof.
  unfold Create. intros Hc.
  destruct (create_ok _ _ _ _ Hc) as (Ht & (ch & Hch & Heq) & Hother & _).
  split; [|split; [|split; [|split]]].
  - unfold create. rewrite Hch, Heq. reflexivity.
  - eauto.
  - exact Hother.
  - intros ch' attributes' Hch' Hne. unfold create. rewrite Hch', Hne. reflexivity.
  - intros ch' attributes'. apply isEqualChain_true.
Qed.

(** C3, at a regular chain created twice in the empty sample store. *)
Lemma C3_create_idempotent_witness :
  Create "chain-1" None (storeWith quietKernel "chain-1")
  = (None, storeWith quietKernel "chain-1")
  /\ is_Some (chains (storeWith quietKernel "chain-1") !! "chain-1").
Proof.
  destruct (C3_create_idempotent "chain-1" None (emptyStore quietKernel)
              (storeWith quietKernel "chain-1") eq_refl) as (H1 & H2 & _).
  split; [exact H1|exact H2].
Defined.

(** C3 as stated fails. A base chain is created with policy drop; a second
    Create for the same name whose attributes differ, naming no policy,
    returns no conflict error. And Create with attributes that name no
    type fails, the first time already. *)
Lemma C3_counterexample :
  fst (Create "chain-1" (Some attrsNoType) (emptyStore quietKernel))
  = Some (ErrStr "base chain must have type set")
  /\ fst (Create "chain-1" (Some attrsDrop) (emptyStore quietKernel)) = None
  /\ attrsNoPolicy <> attrsDrop
  /\ Create "chain-1" (Some attrsNoPolicy)
       (snd (Create "chain-1" (Some attrsDrop) (emptyStore quietKernel)))
     = (None, snd (Create "chain-1" (Some attrsDrop) (emptyStore quietKernel))).
Proof. repeat split. intros H. discriminate H. Qed.

(** C9 (amended). When CreateImm returns an error, either create itself
    failed (conflict or validation) and the store is as before the call,
    or create succeeded and the commit failed: the store then still holds
    the object create stored for the name, nothing is rolled back. *)
Theorem C9_createImm_failure (name : string) (attributes : option ChainAttributes)
    (nfc nfc' : nfChains) (err : error) :
  CreateImm name attributes nfc = (Some err, nfc') ->
  (create name attributes nfc = (Some err, nfc) /\ nfc' = nfc)
  \/ (exists nfc1,
        create name attributes nfc = (None, nfc1)
        /\ fst (Flush (conn nfc1)) = Some err
        /\ chains nfc' = chains nfc1
        /\ is_Some (chains nfc' !! name)).
Proof.
  unfold CreateImm.
  destruct (create name attributes nfc) as [[e|] nfc1] eqn:Hc.
  - intros [= <- <-]. left.
    rewrite (create_error_unchanged _ _ _ _ _ Hc) in *. split; reflexivity.
  - destruct (create_ok _ _ _ _ Hc) as (_ & (ch & Hch & _) & _).
    destruct (Flush (conn nfc1)) as [[e|] conn'] eqn:HF; [|discriminate].
    intros [= <- <-]. right. exists nfc1.
    split; [reflexivity|]. split; [rewrite HF; reflexivity|].
    split; [reflexivity|]. exists ch. exact Hch.
Qed.

(** C9, at a chain created against a kernel that refuses the commit. *)
Lemma C9_createImm_failure_witness :
  is_Some (chains (snd (CreateImm "chain-1" None (emptyStore (refusingKernel ENOENT))))
             !! "chain-1").
Proof.
  destruct (C9_createImm_failure "chain-1" None
              (emptyStore (refusingKernel ENOENT))
              (snd (CreateImm "chain-1" None (emptyStore (refusingKernel ENOENT))))
              ENOENT eq_refl) as [[H _] | (nfc1 & _ & _ & _ & H)].
  - discriminate H.
  - exact H.
Defined.

(** C9 as stated fails. The store is empty and the kernel refuses the
    commit: CreateImm returns the error, and the store holds the chain the
    kernel never received. *)
Lemma C9_counterexample :
  chains (emptyStore (refusingKernel ENOENT)) !! "chain-1" = None
  /\ fst (CreateImm "chain-1" None (emptyStore (refusingKernel ENOENT)))
     = Some ENOENT
  /\ chains (snd (CreateImm "chain-1" None (emptyStore (refusingKernel ENOENT))))
       !! "chain-1"
     = Some (mkNfChain false
               (Some (mkChain "chain-1" sampleTable None None "" None))
               (Some (newRules sampleTable
                        (Some (mkChain "chain-1" sampleTable None None "" None))))).
Proof. repeat split. Qed.

(** One delete attempt: the request and the commit are logged, and the
    commit gets the kernel's next reply. *)
Lemma Flush_DelChain (c : option Chain) (cn : NetNS) :
  Flush (DelChain c cn)
  = (flushReply (kernel cn) (countCalls isFlush cn),
     mkNetNS (kernel cn) (calls cn ++ [CallDelChain c; CallFlush])).
Proof.
  unfold Flush, DelChain, logCall, countCalls. simpl.
  rewrite List.filter_app, length_app. simpl. rewrite Nat.add_0_r.
  rewrite <- app_assoc. reflexivity.
Qed.

Lemma flushAt_after_attempt (nfc : nfChains) (c : option Chain) (j : nat) :
  flushAt
    (withConn nfc (mkNetNS (kernel (conn nfc))
                     (calls (conn nfc) ++ [CallDelChain c; CallFlush]))) j
  = flushAt nfc (S j).
Proof.
  unfold flushAt, countCalls. simpl.
  rewrite List.filter_app, length_app. simpl. f_equal. lia.
Qed.

(** The loop of [DeleteImm] stops at the first attempt whose commit is not
    busy or whose wait ends on the timer; it returns the reply to that
    commit, and drops the name from the store only when that reply is
    nil. *)
Lemma deleteImmLoop_stops (rt : Runtime) (timeout : Timer) (ticker : Ticker)
    (name : string) (ch : nfChain) :
  forall (k fuel n : nat) (nfc : nfChains),
    (forall j, (j < k)%nat ->
       busyAt nfc j = true /\ rt timeout ticker (n + j)%nat = CaseTick) ->
    busyAt nfc k = false \/ rt timeout ticker (n + k)%nat = CaseTimeout ->
    (k < fuel)%nat ->
    deleteImmLoop rt timeout ticker name ch fuel n nfc
    = Some (flushAt nfc k,
            mkNfChains
              (mkNetNS (kernel (conn nfc))
                 (calls (conn nfc) ++ attempts (chain ch) (S k)))
              (table nfc)
              (match flushAt nfc k with
               | None => delete name (chains nfc)
               | Some _ => chains nfc
               end)).
Proof.
  induction k as [|k IH]; intros fuel n nfc Hbusy Hstop Hfuel.
  - destruct fuel as [|fuel]; [lia|].
    cbn [deleteImmLoop]. rewrite Flush_DelChain.
    unfold busyAt in Hstop. unfold flushAt in *.
    rewrite !Nat.add_0_r in Hstop. rewrite Nat.add_0_r.
    destruct (flushReply (kernel (conn nfc)) (countCalls isFlush (conn nfc)))
      as [err|]; [|reflexivity].
    destruct (errorsIs err EBUSY); simpl; [|reflexivity].
    destruct Hstop as [Hstop|Hstop]; [discriminate|]. rewrite Hstop. reflexivity.
  - destruct fuel as [|fuel]; [lia|].
    cbn [deleteImmLoop]. rewrite Flush_DelChain.
    destruct (Hbusy 0%nat ltac:(lia)) as [Hb0 Ht0].
    unfold busyAt, flushAt in Hb0. rewrite Nat.add_0_r in Hb0, Ht0.
    destruct (flushReply (kernel (conn nfc)) (countCalls isFlush (conn nfc)))
      as [err|]; [|discriminate].
    rewrite Hb0, Ht0. simpl.
    rewrite IH.
    + rewrite flushAt_after_attempt. simpl. rewrite <- app_assoc. reflexivity.
    + intros j Hj. destruct (Hbusy (S j) ltac:(lia)) as [Hb Ht].
      split.
      * unfold busyAt in *. rewrite flushAt_after_attempt. exact Hb.
      * rewrite <- Ht. f_equal. lia.
    + destruct Hstop as [Hstop|Hstop]; [left|right].
      * unfold busyAt in *. rewrite flushAt_after_attempt. exact Hstop.
      * rewrite <- Hstop. f_equal. lia.
    + lia.
Qed.

(** C4. For a name in the store, DeleteImm issues its delete request
    again only after a commit that failed busy and a wait that ended on
    the ticker. The timer is set to ChainDeleteTimeout, 60 seconds, and the
    ticker to a tenth of it. With k such retries, the call makes k + 1
    attempts and returns the reply to the last commit: nil when it
    succeeded, the error when it is not busy, and the last busy error when
    the wait ended on the timer. *)
Theorem C4_deleteImm_retry (rt : Runtime) (name : string) (nfc : nfChains)
    (ch : nfChain) (k fuel : nat) :
  chains nfc !! name = Some ch ->
  (forall j, (j < k)%nat -> busyAt nfc j = true /\ tickAt rt j = true) ->
  busyAt nfc k = false \/ tickAt rt k = false ->
  (k < fuel)%nat ->
  (exists nfc',
      DeleteImm rt fuel name nfc = Some (flushAt nfc k, nfc')
      /\ calls (conn nfc') = calls (conn nfc) ++ attempts (chain ch) (S k))
  /\ (flushAt nfc k = None \/
      (exists err, flushAt nfc k = Some err /\ errorsIs err EBUSY = false) \/
      (exists err, flushAt nfc k = Some err /\ errorsIs err EBUSY = true
                   /\ rt deleteTimer deleteTicker k = CaseTimeout))
  /\ timerD deleteTimer = ChainDeleteTimeout
  /\ ChainDeleteTimeout = 60 * Second
  /\ tickerD deleteTicker = ChainDeleteTimeout `quot` 10
  /\ tickerD deleteTicker = 6 * Second.
Proof.
  intros Hch Hbusy Hstop Hfuel.
  assert (Htick : forall j, tickAt rt j = true ->
                            rt deleteTimer deleteTicker j = CaseTick).
  { intros j. unfold tickAt. now destruct (rt deleteTimer deleteTicker j). }
  assert (Htime : forall j, tickAt rt j = false ->
                            rt deleteTimer deleteTicker j = CaseTimeout).
  { intros j. unfold tickAt. now destruct (rt deleteTimer deleteTicker j). }
  split; [|split; [|repeat split]].
  - eexists. split.
    + unfold DeleteImm. rewrite Hch.
      apply (deleteImmLoop_stops rt deleteTimer deleteTicker name ch k fuel 0).
      * intros j Hj. destruct (Hbusy j Hj) as [Hb Ht]. split; [exact Hb|].
        simpl. now apply Htick.
      * destruct Hstop as [Hs|Hs]; [now left|right]. simpl. now apply Htime.
      * exact Hfuel.
    + reflexivity.
  - unfold busyAt in Hstop.
    destruct (flushAt nfc k) as [err|]; [|now left]. right.
    destruct (errorsIs err EBUSY) eqn:He.
    + right. exists err. destruct Hstop as [Hs|Hs]; [discriminate|].
      repeat split; [exact He|now apply Htime].
    + left. exists err. split; [reflexivity|exact He].
Qed.

(** C4, at a chain whose delete is busy twice and then succeeds. *)
Lemma C4_deleteImm_retry_witness :
  exists nfc',
    DeleteImm alwaysTick 3 "chain-1" (storeWith (busyKernel 2) "chain-1")
    = Some (None, nfc')
    /\ calls (conn nfc')
       = calls (conn (storeWith (busyKernel 2) "chain-1"))
         ++ attempts (Some (mkChain "chain-1" sampleTable None None "" None)) 3.
Proof.
  refine (proj1 (C4_deleteImm_retry alwaysTick "chain-1"
                   (storeWith (busyKernel 2) "chain-1")
                   (mkNfChain false
                      (Some (mkChain "chain-1" sampleTable None None "" None))
                      (Some (newRules sampleTable
                               (Some (mkChain "chain-1" sampleTable None None "" None)))))
                   2 3 eq_refl _ (or_introl eq_refl) _)).
  - intros j Hj. destruct j as [|[|j]]; [split; reflexivity|split; reflexivity|lia].
  - lia.
Defined.

(** Whatever the loop of [DeleteImm] returns, it drops the name from the
    store on success and leaves the store's map alone on failure. *)
Lemma deleteImmLoop_store (rt : Runtime) (timeout : Timer) (ticker : Ticker)
    (name : string) (ch : nfChain) :
  forall (fuel n : nat) (nfc nfc' : nfChains) (r : option error),
    deleteImmLoop rt timeout ticker name ch fuel n nfc = Some (r, nfc') ->
    match r with
    | None => chains nfc' = delete name (chains nfc)
    | Some _ => chains nfc' = chains nfc
    end.
Proof.
  induction fuel as [|fuel IH]; intros n nfc nfc' r; [discriminate|].
  cbn [deleteImmLoop].
  destruct (Flush (DelChain (chain ch) (conn nfc))) as [[err|] conn2].
  - destruct (negb (errorsIs err EBUSY)).
    + intros [= <- <-]. reflexivity.
    + destruct (rt timeout ticker n).
      * intros [= <- <-]. reflexivity.
      * intros H. apply IH in H. exact H.
  - intros [= <- <-]. reflexivity.
Qed.

(** C5 (amended). For a name in the store, Delete returns nil and the name
    is absent from the store afterwards. DeleteImm drops the name only
    when it returns nil; when it returns an error (a non-busy error, or
    the busy error at the deadline) the store still holds the object. *)
Theorem C5_delete_local_store (name : string) (nfc : nfChains) (ch : nfChain) :
  chains nfc !! name = Some ch ->
  (exists nfc',
      Delete name nfc = (None, nfc')
      /\ chains nfc' = delete name (chains nfc)
      /\ chains nfc' !! name = None)
  /\ (forall (rt : Runtime) (fuel : nat) (r : option error) (nfc' : nfChains),
         DeleteImm rt fuel name nfc = Some (r, nfc') ->
         match r with
         | None => chains nfc' = delete name (chains nfc)
                   /\ chains nfc' !! name = None
         | Some _ => chains nfc' = chains nfc
                     /\ chains nfc' !! name = Some ch
         end).
Proof.
  intros Hch. split.
  - unfold Delete. rewrite Hch. eexists. split; [reflexivity|]. simpl.
    split; [reflexivity|apply lookup_delete_eq].
  - intros rt fuel r nfc'. unfold DeleteImm. rewrite Hch. intros H.
    apply deleteImmLoop_store in H. destruct r as [err|]; rewrite H.
    + split; [reflexivity|exact Hch].
    + split; [reflexivity|apply lookup_delete_eq].
Qed.

(** C5, at a chain deleted against a kernel that accepts the commit. *)
Lemma C5_delete_local_store_witness :
  chains (snd (Delete "chain-1" (storeWith quietKernel "chain-1"))) !! "chain-1"
  = None.
Proof.
  destruct (C5_delete_local_store "chain-1" (storeWith quietKernel "chain-1")
              (mkNfChain false
                 (Some (mkChain "chain-1" sampleTable None None "" None))
                 (Some (newRules sampleTable
                          (Some (mkChain "chain-1" sampleTable None None "" None)))))
              eq_refl) as [(nfc' & Hd & _ & Hn) _].
  rewrite Hd. exact Hn.
Defined.

(** C5 as stated fails. The kernel refuses the commit with a non-busy
    error, or stays busy until the timer fires: DeleteImm returns the
    error and the store still holds the chain. *)
Lemma C5_counterexample :
  (exists nfc',
      DeleteImm alwaysTick 1 "chain-1" (storeWith (refusingKernel ENOENT) "chain-1")
      = Some (Some ENOENT, nfc')
      /\ is_Some (chains nfc' !! "chain-1"))
  /\ (exists nfc',
         DeleteImm alwaysTimeout 1 "chain-1" (storeWith (refusingKernel EBUSY) "chain-1")
         = Some (Some EBUSY, nfc')
         /\ is_Some (chains nfc' !! "chain-1")).
Proof.
  split; (eexists; split; [reflexivity|]); eexists; reflexivity.
Qed.

(** The loop of [Sync]: what it keeps, what it adds, and what it has added
    when it ends without error. *)
Lemma syncLoop_spec :
  forall (cs : list Chain) (nfc nfc' : nfChains) (r : option error),
    syncLoop cs nfc = (r, nfc') ->
    table nfc' = table nfc
    /\ (forall name ch,
           chains nfc !! name = Some ch -> chains nfc' !! name = Some ch)
    /\ (forall name ch',
           chains nfc !! name = None -> chains nfc' !! name = Some ch' ->
           exists c, c ∈ cs /\ sameTable c (table nfc) = true /\ Name c = name
                     /\ ch' = syncEntry (table nfc) c)
    /\ (r = None ->
        forall c, c ∈ cs -> sameTable c (table nfc) = true ->
                  is_Some (chains nfc' !! Name c)).
Proof.
  induction cs as [|c cs IH]; intros nfc nfc' r.
  - simpl. intros [= <- <-]. repeat split; try tauto.
    + intros name ch' Hn Hs. congruence.
    + intros _ c Hc. inversion Hc.
  - cbn [syncLoop].
    destruct (sameTable c (table nfc)) eqn:Hsame.
    2:{ intros H. destruct (IH _ _ _ H) as (Ht & Hkeep & Hnew & Hall).
        repeat split; [exact Ht|exact Hkeep| |].
        - intros name ch' Hn Hs. destruct (Hnew name ch' Hn Hs) as (c' & Hin & Hc').
          exists c'. split; [now apply list_elem_of_further|exact Hc'].
        - intros Hr c' Hin Hc'. apply elem_of_cons in Hin as [->|Hin].
          + congruence.
          + now apply Hall. }
    destruct (chains nfc !! Name c) as [old|] eqn:Hold.
    1:{ intros H. destruct (IH _ _ _ H) as (Ht & Hkeep & Hnew & Hall).
        repeat split; [exact Ht|exact Hkeep| |].
        - intros name ch' Hn Hs. destruct (Hnew name ch' Hn Hs) as (c' & Hin & Hc').
          exists c'. split; [now apply list_elem_of_further|exact Hc'].
        - intros Hr c' Hin Hc'. apply elem_of_cons in Hin as [->|Hin].
          + exists old. now apply Hkeep.
          + now apply Hall. }
    change (if negb (bool_decide (Type_ c = ""))
               && negb (ptrEq (Hooknum c) (Some ChainHookPrerouting))
            then true else false)
      with (if syncTag c then true else false).
    replace (if syncTag c then true else false) with (syncTag c)
      by now destruct (syncTag c).
    fold (syncEntry (table nfc) c).
    set (nfc1 := withChains nfc (<[Name c := syncEntry (table nfc) c]> (chains nfc))).
    destruct (RulesSync (Name c) (conn nfc1)) as [[err|] conn'].
    + intros [= <- <-]. simpl.
      split; [reflexivity|]. split; [|split].
      * intros name ch Hs. rewrite lookup_insert_ne; [exact Hs|]. congruence.
      * intros name ch' Hn Hs.
        destruct (decide (Name c = name)) as [He|Hne].
        -- rewrite <- He, lookup_insert_eq in Hs. injection Hs as <-.
           exists c. split; [apply list_elem_of_here|]. now repeat split.
        -- rewrite lookup_insert_ne in Hs by exact Hne. congruence.
      * discriminate.
    + intros H. destruct (IH _ _ _ H) as (Ht & Hkeep & Hnew & Hall).
      simpl in Ht, Hkeep, Hnew, Hall.
      split; [exact Ht|]. split; [|split].
      * intros name ch Hs. apply Hkeep.
        rewrite lookup_insert_ne; [exact Hs|]. congruence.
      * intros name ch' Hn Hs.
        destruct (decide (Name c = name)) as [He|Hne].
        -- exists c. split; [apply list_elem_of_here|].
           split; [exact Hsame|]. split; [exact He|].
           assert (Hk : chains nfc' !! name = Some (syncEntry (table nfc) c)).
           { apply Hkeep. rewrite <- He. apply lookup_insert_eq. }
           congruence.
        -- destruct (Hnew name ch') as (c' & Hin & Hc').
           ++ rewrite lookup_insert_ne by exact Hne. exact Hn.
           ++ exact Hs.
           ++ exists c'. split; [now apply list_elem_of_further|exact Hc'].
      * intros Hr c' Hin Hc'. apply elem_of_cons in Hin as [->|Hin].
        -- eexists. apply Hkeep. apply lookup_insert_eq.
        -- now apply Hall.
Qed.

(** The loop of [Sync] keeps the kernel behind the connection. *)
Lemma syncLoop_kernel :
  forall (cs : list Chain) (nfc nfc' : nfChains) (r : option error),
    syncLoop cs nfc = (r, nfc') -> kernel (conn nfc') = kernel (conn nfc).
Proof.
  induction cs as [|c cs IH]; intros nfc nfc' r.
  - simpl. now intros [= _ <-].
  - cbn [syncLoop].
    destruct (sameTable c (table nfc)); [|apply IH].
    destruct (chains nfc !! Name c); [apply IH|].
    destruct (RulesSync _ _) as [[e|] conn'] eqn:HR;
      unfold RulesSync in HR; injection HR as _ <-.
    + now intros [= _ <-].
    + intros H. apply IH in H. exact H.
Qed.

(** When the loop of [Sync] returns an error, it has gone through the
    chains listed before some chain without error, stored that chain,
    which was new, and got the error from the listing of its rules; it has
    not looked at the chains listed after it. *)
Lemma syncLoop_error :
  forall (cs : list Chain) (nfc nfc' : nfChains) (err : error),
    syncLoop cs nfc = (Some err, nfc') ->
    exists pre c post nfcp,
      cs = pre ++ c :: post
      /\ syncLoop pre nfc = (None, nfcp)
      /\ sameTable c (table nfc) = true
      /\ chains nfcp !! Name c = None
      /\ rulesSyncReply (kernel (conn nfcp)) (countCalls isRulesSync (conn nfcp))
         = Some err
      /\ nfc'
         = mkNfChains (logCall (CallRulesSync (Name c)) (conn nfcp)) (table nfc)
             (<[Name c := syncEntry (table nfc) c]> (chains nfcp)).
Proof.
  induction cs as [|c cs IH]; intros nfc nfc' err; [discriminate|].
  cbn [syncLoop].
  assert (Hskip : sameTable c (table nfc) = false
                  \/ is_Some (chains nfc !! Name c) ->
                  syncLoop cs nfc = (Some err, nfc') ->
                  exists pre c0 post nfcp,
                    c :: cs = pre ++ c0 :: post
                    /\ syncLoop pre nfc = (None, nfcp)
                    /\ sameTable c0 (table nfc) = true
                    /\ chains nfcp !! Name c0 = None
                    /\ rulesSyncReply (kernel (conn nfcp))
                         (countCalls isRulesSync (conn nfcp)) = Some err
                    /\ nfc'
                       = mkNfChains (logCall (CallRulesSync (Name c0)) (conn nfcp))
                           (table nfc)
                           (<[Name c0 := syncEntry (table nfc) c0]> (chains nfcp))).
  { intros H1 H. destruct (IH _ _ _ H) as (pre & c0 & post & nfcp & -> & Hp & Hrest).
    exists (c :: pre), c0, post, nfcp. split; [reflexivity|]. split; [|exact Hrest].
    cbn [syncLoop].
    destruct (sameTable c (table nfc)); [|exact Hp].
    destruct H1 as [H1|[old H1]]; [discriminate|]. rewrite H1. exact Hp. }
  destruct (sameTable c (table nfc)) eqn:Hsame.
  2:{ apply Hskip. now left. }
  destruct (chains nfc !! Name c) as [old|] eqn:Hold.
  1:{ apply Hskip. right. now exists old. }
  change (if negb (bool_decide (Type_ c = ""))
             && negb (ptrEq (Hooknum c) (Some ChainHookPrerouting))
          then true else false)
    with (if syncTag c then true else false).
  replace (if syncTag c then true else false) with (syncTag c)
    by now destruct (syncTag c).
  fold (syncEntry (table nfc) c).
  set (nfc1 := withChains nfc (<[Name c := syncEntry (table nfc) c]> (chains nfc))).
  destruct (RulesSync (Name c) (conn nfc1)) as [[e|] conn'] eqn:HR.
  - intros [= <- <-]. exists [], c, cs, nfc.
    unfold RulesSync in HR. injection HR as He <-.
    split; [reflexivity|]. split; [reflexivity|]. split; [exact Hsame|].
    split; [exact Hold|]. split; [exact He|]. reflexivity.
  - intros H.
    destruct (IH _ _ _ H) as (pre & c0 & post & nfcp & -> & Hp & Hs0 & Hrest).
    exists (c :: pre), c0, post, nfcp. split; [reflexivity|].
    split; [|split; [exact Hs0|exact Hrest]].
    cbn [syncLoop]. rewrite Hsame, Hold.
    change (if negb (bool_decide (Type_ c = ""))
               && negb (ptrEq (Hooknum c) (Some ChainHookPrerouting))
            then true else false)
      with (if syncTag c then true else false).
    replace (if syncTag c then true else false) with (syncTag c)
      by now destruct (syncTag c).
    fold (syncEntry (table nfc) c). fold nfc1. rewrite HR. exact Hp.
Qed.

(** C6 (amended). Whatever Sync returns, every object of the local store
    is still there, unchanged, and every object added is the wrapper of a
    chain of the kernel listing that belongs to the table of the store and
    whose name was not in the store. When Sync returns nil, every chain of
    the listing that belongs to the table is in the store. When Sync
    returns an error, either the listing of chains failed and the store is
    as it was, or the listing of the rules of a chain just added failed:
    that listing is the last call Sync made, the chains of the table
    listed before that chain are in the store, that chain is, and no chain
    listed after it has been added. *)
Theorem C6_sync_one_directional (nfc nfc' : nfChains) (r : option error) :
  Sync nfc = (r, nfc') ->
  table nfc' = table nfc
  /\ (forall name ch,
         chains nfc !! name = Some ch -> chains nfc' !! name = Some ch)
  /\ (forall name ch',
         chains nfc !! name = None -> chains nfc' !! name = Some ch' ->
         exists cs c,
           nextListing nfc = inl cs /\ c ∈ cs
           /\ sameTable c (table nfc) = true /\ Name c = name
           /\ ch' = syncEntry (table nfc) c)
  /\ (r = None ->
      exists cs,
        nextListing nfc = inl cs
        /\ forall c, c ∈ cs -> sameTable c (table nfc) = true ->
                     is_Some (chains nfc' !! Name c))
  /\ (forall err,
         r = Some err ->
         (nextListing nfc = inr err /\ chains nfc' = chains nfc)
         \/ (exists pre c post l,
                nextListing nfc = inl (pre ++ c :: post)
                /\ sameTable c (table nfc) = true
                /\ chains nfc !! Name c = None
                /\ chains nfc' !! Name c = Some (syncEntry (table nfc) c)
                /\ calls (conn nfc') = l ++ [CallRulesSync (Name c)]
                /\ rulesSyncReply (kernel (conn nfc))
                     (length (List.filter isRulesSync l)) = Some err
                /\ (forall c0, c0 ∈ pre -> sameTable c0 (table nfc) = true ->
                               is_Some (chains nfc' !! Name c0))
                /\ (forall name,
                       chains nfc !! name = None ->
                       is_Some (chains nfc' !! name) ->
                       exists c0, c0 ∈ pre ++ [c]
                                  /\ sameTable c0 (table nfc) = true
                                  /\ Name c0 = name))).
Proof.
  unfold Sync, ListChains. fold (nextListing nfc).
  destruct (nextListing nfc) as [cs|err].
  - intros H. destruct (syncLoop_spec _ _ _ _ H) as (Ht & Hkeep & Hnew & Hall).
    simpl in Ht, Hkeep, Hnew, Hall.
    split; [exact Ht|]. split; [exact Hkeep|]. split; [|split].
    + intros name ch' Hn Hs. destruct (Hnew name ch' Hn Hs) as (c & Hc).
      exists cs, c. split; [reflexivity|exact Hc].
    + intros Hr. exists cs. split; [reflexivity|]. now apply Hall.
    + intros err ->. right.
      destruct (syncLoop_error _ _ _ _ H)
        as (pre & c & post & nfcp & -> & Hp & Hsame & Hfresh & Hreply & ->).
      destruct (syncLoop_spec _ _ _ _ Hp) as (_ & Hkeepp & Hnewp & Hallp).
      pose proof (syncLoop_kernel _ _ _ _ Hp) as Hk.
      simpl in Hsame, Hkeepp, Hnewp, Hallp, Hk.
      exists pre, c, post, (calls (conn nfcp)).
      split; [reflexivity|]. split; [exact Hsame|]. split; [|split; [|split; [|split; [|split]]]].
      * destruct (chains nfc !! Name c) as [ch|] eqn:Hc; [|reflexivity].
        rewrite (Hkeepp _ _ Hc) in Hfresh. discriminate.
      * simpl. apply lookup_insert_eq.
      * reflexivity.
      * rewrite <- Hk. exact Hreply.
      * intros c0 Hin Hs0. simpl.
        destruct (decide (Name c = Name c0)) as [->|Hne].
        -- rewrite lookup_insert_eq. eauto.
        -- rewrite lookup_insert_ne by exact Hne. now apply Hallp.
      * intros name Hn [ch' Hs]. simpl in Hs.
        destruct (decide (Name c = name)) as [<-|Hne].
        -- exists c. split; [apply elem_of_app; right; apply list_elem_of_here|].
           now split.
        -- rewrite lookup_insert_ne in Hs by exact Hne.
           destruct (Hnewp name ch' Hn Hs) as (c0 & Hin & Hs0 & Hname & _).
           exists c0. split; [apply elem_of_app; now left|]. now split.
  - intros [= <- <-]. simpl. split; [reflexivity|]. split; [tauto|].
    split; [|split].
    + intros name ch' Hn Hs. congruence.
    + discriminate.
    + intros err' [= <-]. now left.
Qed.

(** C6, at the store holding chain A and a kernel listing A and B. *)
Lemma C6_sync_one_directional_witness :
  chains (snd (Sync (storeWith (listingKernel
                                  [mkChain "A" sampleTable None None "" None;
                                   kernelChainB] (fun _ => None)) "A"))) !! "A"
  = Some (mkNfChain false
            (Some (mkChain "A" sampleTable None None "" None))
            (Some (newRules sampleTable
                     (Some (mkChain "A" sampleTable None None "" None))))).
Proof.
  refine (proj1 (proj2 (C6_sync_one_directional
                          (storeWith (listingKernel
                                        [mkChain "A" sampleTable None None "" None;
                                         kernelChainB] (fun _ => None)) "A")
                          _ _ _)) "A" _ eq_refl).
  apply surjective_pairing.
Defined.

(** C6 as stated fails. The kernel lists B and C for the table of an
    empty store, and the listing of B's rules fails: Sync returns the
    error and C, a kernel chain whose name is not in the store, has not
    been added. *)
Lemma C6_counterexample :
  fst (Sync (emptyStore (listingKernel [kernelChainB; kernelChainC]
                           (fun _ => Some ENOENT))))
  = Some ENOENT
  /\ sameTable kernelChainC sampleTable = true
  /\ chains (emptyStore (listingKernel [kernelChainB; kernelChainC]
                           (fun _ => Some ENOENT))) !! "C" = None
  /\ chains (snd (Sync (emptyStore (listingKernel [kernelChainB; kernelChainC]
                                      (fun _ => Some ENOENT))))) !! "C"
     = None.
Proof. repeat split. Qed.


(** When the listing holds a chain of the wanted name in the table of the
    store, the loop of [Exist] runs [Sync] once and answers by its
    outcome. *)
Lemma existLoop_found (name : string) :
  forall (cs : list Chain) (nfc : nfChains),
    (exists c, c ∈ cs /\ Name c = name
               /\ TableName (ChainTable c) = TableName (table nfc)
               /\ Family (ChainTable c) = Family (table nfc)) ->
    existLoop name cs nfc
    = (match fst (Sync nfc) with None => true | Some _ => false end,
       snd (Sync nfc)).
Proof.
  induction cs as [|c cs IH]; intros nfc (c0 & Hin & Hname & HT & HF).
  - inversion Hin.
  - cbn [existLoop].
    destruct (bool_decide (Name c = name)) eqn:Hn.
    + destruct (bool_decide (TableName (table nfc) = TableName (ChainTable c))
                && bool_decide (Family (table nfc) = Family (ChainTable c)))
        eqn:Hm.
      * destruct (Sync nfc) as [[err|] nfc']; reflexivity.
      * apply IH. exists c0. apply elem_of_cons in Hin as [->|Hin].
        -- rewrite !bool_decide_eq_true_2 in Hm by congruence. discriminate.
        -- now repeat split.
    + apply IH. exists c0. apply elem_of_cons in Hin as [->|Hin].
      * apply bool_decide_eq_false in Hn. contradiction.
      * now repeat split.
Qed.

(** C10. Exist returns true, without calling the kernel, for a name in the
    local store. For a name that is not there it returns false when the
    listing of chains fails, and when the listing holds the chain but the
    Sync it triggers fails: the failure never reaches the caller. *)
Theorem C10_exist_hides_failures (name : string) (nfc : nfChains) :
  (forall ch, chains nfc !! name = Some ch -> Exist name nfc = (true, nfc))
  /\ (chains nfc !! name = None ->
      forall err, nextListing nfc = inr err -> fst (Exist name nfc) = false)
  /\ (chains nfc !! name = None ->
      forall cs c err,
        nextListing nfc = inl cs ->
        c ∈ cs -> Name c = name ->
        TableName (ChainTable c) = TableName (table nfc) ->
        Family (ChainTable c) = Family (table nfc) ->
        fst (Sync (withConn nfc (snd (ListChains (conn nfc))))) = Some err ->
        fst (Exist name nfc) = false).
Proof.
  split; [|split].
  - intros ch Hch. unfold Exist. rewrite Hch. reflexivity.
  - intros Hn err Hl. unfold Exist, ListChains. fold (nextListing nfc).
    rewrite Hn, Hl. reflexivity.
  - intros Hn cs c err Hl Hin Hname HT HF Hsync.
    unfold Exist. rewrite Hn.
    unfold ListChains in *. fold (nextListing nfc) in *. rewrite Hl.
    simpl in Hsync. rewrite existLoop_found.
    + simpl. rewrite Hsync. reflexivity.
    + exists c. now repeat split.
Qed.

(** C10, at a chain B the kernel lists while the listing of its rules
    fails: Exist answers false. *)
Lemma C10_exist_hides_failures_witness :
  fst (Exist "B" (emptyStore (listingKernel [kernelChainB] (fun _ => Some ENOENT))))
  = false
  /\ fst (Exist "B" (emptyStore (unreachableKernel ENOENT))) = false
  /\ Exist "B" (storeWith quietKernel "B") = (true, storeWith quietKernel "B").
Proof.
  split; [|split].
  - refine (proj2 (proj2 (C10_exist_hides_failures "B"
                            (emptyStore (listingKernel [kernelChainB]
                                           (fun _ => Some ENOENT)))))
              eq_refl [kernelChainB] kernelChainB ENOENT eq_refl _
              eq_refl eq_refl eq_refl eq_refl).
    apply list_elem_of_here.
  - exact (proj1 (proj2 (C10_exist_hides_failures "B"
                           (emptyStore (unreachableKernel ENOENT))))
             eq_refl ENOENT eq_refl).
  - exact (proj1 (C10_exist_hides_failures "B" (storeWith quietKernel "B"))
             _ eq_refl).
Defined.

(** * Further properties of the compiler *)

(** The key loop keeps the number of set elements. *)
Lemma setKeys_length (conv : IP -> IP) (lst : list (option IPAddr)) :
  forall (n i : nat) (els els' : list SetElement),
    setKeys conv lst n i els = Ok els' -> length els' = length els.
Proof.
  induction n as [|n IH]; intros i els els'.
  - simpl. intros [= <-]. reflexivity.
  - cbn [setKeys].
    destruct (lst !! i) as [p|]; [|discriminate].
    destruct (ipOf p) as [ip| |]; try discriminate.
    destruct (decide (i < length els)%nat); [|discriminate].
    intros H. apply IH in H. rewrite H. apply length_alter.
Qed.

(** What a successful selection tells: the family is IPv4 or IPv6, and the
    specification, the offset and the key type are those of the direction
    the rule matches on. *)
Lemma selectAddr_Ok (l3proto : TableFamily) (l3 : L3Rule) (set set' : NftSet)
    (ruleAddr : IPAddrSpec) (addrOffset : Z) :
  selectAddr l3proto l3 set = Ok (ruleAddr, addrOffset, set') ->
  (l3proto = TableFamilyIPv4 \/ l3proto = TableFamilyIPv6)
  /\ exists d,
       directionOf l3 = Some d
       /\ specOfDirection l3 d = Some ruleAddr
       /\ addrOffset = specOffset l3proto d
       /\ set' = withKeyType set (keyTypeFor l3proto).
Proof.
  intros H.
  assert (Hfam : l3proto = TableFamilyIPv4 \/ l3proto = TableFamilyIPv6).
  { destruct (decide (l3proto = TableFamilyIPv4)) as [|H4]; [now left|].
    destruct (decide (l3proto = TableFamilyIPv6)) as [|H6]; [now right|].
    exfalso. destruct (directionOf l3) as [d|] eqn:Hd.
    - rewrite (selectAddr_unknown_family l3proto l3 set d H4 H6 Hd) in H.
      discriminate.
    - unfold directionOf in Hd. unfold selectAddr in H.
      destruct (Dst l3), (Src l3); discriminate. }
  split; [exact Hfam|].
  destruct (directionOf l3) as [d|] eqn:Hd.
  - destruct (selectAddr_direction l3proto l3 set d Hfam Hd) as (ra & Hra & Hsel).
    rewrite Hsel in H. injection H as <- <- <-.
    exists d. repeat split. exact Hra.
  - exfalso. unfold directionOf in Hd. unfold selectAddr in H.
    destruct (Dst l3), (Src l3); discriminate.
Qed.

Lemma To4_of_To16 (ip : IP) : length ip = 4%nat -> To4 (To16 ip) = ip.
Proof.
  intros Hl. destruct ip as [|a [|b [|c [|d [|e ip]]]]]; try discriminate.
  reflexivity.
Qed.

Lemma To4_four (ip : IP) : length ip = 4%nat -> To4 ip = ip.
Proof. intros Hl. unfold To4, IPv4len. rewrite Hl. reflexivity. Qed.

Lemma To16_of_To16 (ip : IP) : length ip = 4%nat -> To16 (To16 ip) = To16 ip.
Proof.
  intros Hl. destruct ip as [|a [|b [|c [|d [|e ip]]]]]; try discriminate.
  reflexivity.
Qed.

Lemma ipOf_mkAddr (ips : list IP) :
  Forall2 (fun p ip => ipOf p = Ok ip) (map mkAddr ips) ips.
Proof. induction ips; constructor; [reflexivity|assumption]. Qed.

Section CompilerCoverage.

Variable getExprForSingleIP :
  TableFamily -> Z -> option IPAddr -> bool -> res (list expr.Any).
Variable getExprForListIP :
  TableFamily -> NftSet -> Z -> bool -> res (list expr.Any).
Variable getExprForRangeIP :
  TableFamily -> Z -> option IPAddr * option IPAddr -> bool -> res (list expr.Any).
Variable getExprForIPVersion : Z -> bool -> res (list expr.Any).

Abbreviation processAddrList'' :=
  (processAddrList getExprForSingleIP getExprForListIP).
Abbreviation createL3'' :=
  (createL3 getExprForSingleIP getExprForListIP getExprForRangeIP
     getExprForIPVersion).

(** X1. An address rule (no Version, Src or Dst set) under a family other
    than IPv4 and IPv6 is refused with the unknown-family error, before any
    expression is built, and the set is left as it was. *)
Theorem X1_createL3_unknown_family (l3proto : TableFamily) (rule : Rule)
    (l3 : L3Rule) (set : NftSet) (d : Direction) :
  l3proto <> TableFamilyIPv4 -> l3proto <> TableFamilyIPv6 ->
  L3 rule = Some l3 -> Version l3 = None ->
  directionOf l3 = Some d ->
  createL3'' l3proto rule set = (Err (errUnknownFamily l3proto), set).
Proof.
  intros H4 H6 HL3 HV Hd. unfold createL3. rewrite HL3, HV.
  rewrite (selectAddr_unknown_family l3proto l3 set d H4 H6 Hd). reflexivity.
Qed.

(** X2. createL3 never touches the name and the ID of the set, and changes
    its key type in one case only: an address rule under IPv4 or IPv6 gets
    the key type of the family, and gets it even when the compilation then
    fails; in every other case the set comes back as it was. *)
Theorem X2_createL3_set (l3proto : TableFamily) (rule : Rule) (set : NftSet) :
  SetName (snd (createL3'' l3proto rule set)) = SetName set
  /\ SetID (snd (createL3'' l3proto rule set)) = SetID set
  /\ (snd (createL3'' l3proto rule set) = set
      \/ (exists l3 d,
            L3 rule = Some l3 /\ Version l3 = None /\ directionOf l3 = Some d
            /\ (l3proto = TableFamilyIPv4 \/ l3proto = TableFamilyIPv6)))
  /\ (forall l3 d,
         L3 rule = Some l3 -> Version l3 = None -> directionOf l3 = Some d ->
         l3proto = TableFamilyIPv4 \/ l3proto = TableFamilyIPv6 ->
         snd (createL3'' l3proto rule set)
         = withKeyType set (keyTypeFor l3proto)).
Proof.
  assert (Hsel : forall l3, L3 rule = Some l3 -> Version l3 = None ->
            snd (createL3'' l3proto rule set) = set
            \/ exists d, directionOf l3 = Some d
                 /\ (l3proto = TableFamilyIPv4 \/ l3proto = TableFamilyIPv6)
                 /\ snd (createL3'' l3proto rule set)
                    = withKeyType set (keyTypeFor l3proto)).
  { intros l3 HL3 HV. unfold createL3. rewrite HL3, HV.
    destruct (selectAddr l3proto l3 set) as [[[ra off] s']| |] eqn:Hs;
      [|now left|now left].
    destruct (selectAddr_Ok _ _ _ _ _ _ Hs) as (Hfam & d & Hd & _ & _ & ->).
    right. exists d. simpl. now repeat split. }
  destruct (L3 rule) as [l3|] eqn:HL3.
  2:{ unfold createL3. rewrite HL3. simpl.
      repeat split; try reflexivity; [now left|discriminate]. }
  destruct (Version l3) as [v|] eqn:HV.
  1:{ unfold createL3. rewrite HL3, HV. simpl.
      repeat split; try reflexivity; [now left|].
      intros l3' d [= <-]. congruence. }
  destruct (Hsel l3 eq_refl HV) as [Hu|(d & Hd & Hfam & Hk)].
  - split; [now rewrite Hu|]. split; [now rewrite Hu|]. split; [now left|].
    intros l3' d' [= <-] _ Hd' Hfam.
    destruct (createL3_address getExprForSingleIP getExprForListIP
                getExprForRangeIP getExprForIPVersion l3proto rule l3 set d'
                Hfam HL3 HV Hd') as (ra & _ & Hc).
    rewrite Hc. reflexivity.
  - split; [now rewrite Hk|]. split; [now rewrite Hk|]. split.
    + right. exists l3, d. now repeat split.
    + intros l3' d' [= <-] _ _ _. exact Hk.
Qed.

(** X3. createL3 returns set elements in one case only: an address rule
    under IPv4 or IPv6 whose selected specification has a List of at least
    two entries; there are then as many elements as entries. A Version
    rule, a one-entry list and a range never produce set elements. *)
Theorem X3_createL3_set_elements (l3proto : TableFamily) (rule : Rule)
    (set set' : NftSet) (r : NftRule) (els : list SetElement) :
  createL3'' l3proto rule set = (Ok (r, els), set') ->
  els <> [] ->
  exists l3 d ruleAddr,
    L3 rule = Some l3 /\ Version l3 = None
    /\ directionOf l3 = Some d /\ specOfDirection l3 d = Some ruleAddr
    /\ (l3proto = TableFamilyIPv4 \/ l3proto = TableFamilyIPv6)
    /\ (2 <= length (List_ ruleAddr))%nat
    /\ length els = length (List_ ruleAddr).
Proof.
  unfold createL3. intros H Hne.
  destruct (L3 rule) as [l3|] eqn:HL3; [|discriminate].
  destruct (Version l3) as [v|] eqn:HV.
  { unfold processVersion in H.
    destruct (getExprForIPVersion v (Exclude rule)); simpl in H;
      try discriminate. injection H as _ <- _. contradiction. }
  destruct (selectAddr l3proto l3 set) as [[[ra off] s']| |] eqn:Hs;
    try discriminate.
  destruct (selectAddr_Ok _ _ _ _ _ _ Hs) as (Hfam & d & Hd & Hra & _ & _).
  exists l3, d, ra. repeat split; try assumption.
  all: injection H as H _; unfold dispatchAddr in H;
    destruct (decide (length (List_ ra) ≠ 0%nat)) as [Hl|Hl].
  all: try (destruct (Range ra) as [[?|] [?|]]; try discriminate;
            unfold processAddrRange in H;
            destruct (getExprForRangeIP _ _ _ _); simpl in H; try discriminate;
            injection H as _ <-; contradiction).
  all: unfold processAddrList in H;
    destruct (decide (length (List_ ra) = 1%nat)) as [H1|H1];
    [destruct (getExprForSingleIP _ _ _ _); simpl in H; try discriminate;
     injection H as _ <-; contradiction|].
  - lia.
  - destruct Hfam as [-> | ->].
    + destruct (decide (TableFamilyIPv4 = TableFamilyIPv4)); [|contradiction].
      destruct (setKeys To4 _ _ _ _) as [se| |] eqn:Hk; simpl in H;
        try discriminate.
      destruct (decide (TableFamilyIPv4 = TableFamilyIPv6)); [discriminate|].
      simpl in H. destruct (decide (length se = 0%nat)); [discriminate|].
      destruct (getExprForListIP _ _ _ _); simpl in H; try discriminate.
      injection H as _ <-. apply setKeys_length in Hk.
      rewrite Hk, length_replicate. reflexivity.
    + destruct (decide (TableFamilyIPv6 = TableFamilyIPv4)); [discriminate|].
      simpl in H.
      destruct (decide (TableFamilyIPv6 = TableFamilyIPv6)); [|contradiction].
      destruct (setKeys To16 _ _ _ _) as [se| |] eqn:Hk; simpl in H;
        try discriminate.
      destruct (decide (length se = 0%nat)); [discriminate|].
      destruct (getExprForListIP _ _ _ _); simpl in H; try discriminate.
      injection H as _ <-. apply setKeys_length in Hk.
      rewrite Hk, length_replicate. reflexivity.
Qed.

(** X4. A non-empty List takes precedence over the Range of the same
    specification: whatever the Range holds, the rule compiles as its List
    says, for a destination and for a source specification alike. *)
Theorem X4_list_before_range (l3proto : TableFamily) (src : option IPAddrSpec)
    (lst : list (option IPAddr)) (rng1 rng2 : option IPAddr * option IPAddr)
    (protocol : option Z) (excl : bool) (set : NftSet) :
  lst <> [] ->
  createL3'' l3proto
    (mkRule (Some (mkL3Rule src (Some (mkIPAddrSpec lst rng1)) None protocol)) excl) set
  = createL3'' l3proto
      (mkRule (Some (mkL3Rule src (Some (mkIPAddrSpec lst rng2)) None protocol)) excl) set
  /\ createL3'' l3proto
       (mkRule (Some (mkL3Rule (Some (mkIPAddrSpec lst rng1)) None None protocol)) excl) set
     = createL3'' l3proto
         (mkRule (Some (mkL3Rule (Some (mkIPAddrSpec lst rng2)) None None protocol)) excl) set.
Proof.
  intros Hne.
  assert (Hl : length lst ≠ 0%nat) by (destruct lst; [contradiction|discriminate]).
  split; unfold createL3, selectAddr; cbn [L3 Version Src Dst Exclude].
  - destruct src; cbn [bind];
      destruct (decide (l3proto = TableFamilyIPv4));
      destruct (decide (l3proto = TableFamilyIPv6)); cbn [bind];
      try reflexivity; unfold dispatchAddr; cbn [List_];
      destruct (decide (length lst ≠ 0%nat)); try contradiction; reflexivity.
  - destruct (decide (l3proto = TableFamilyIPv4));
      destruct (decide (l3proto = TableFamilyIPv6)); cbn [bind];
      try reflexivity; unfold dispatchAddr; cbn [List_];
      destruct (decide (length lst ≠ 0%nat)); try contradiction; reflexivity.
Qed.

(** X5. On the empty list processAddrList fails with the unknown-family
    error, under IPv4 and IPv6 as under any other family, without building
    an expression. *)
Theorem X5_processAddrList_empty (l3proto : TableFamily) (offset : Z)
    (excl : bool) (set : NftSet) :
  processAddrList'' l3proto offset [] excl set = Err (errUnknownFamily l3proto).
Proof.
  unfold processAddrList. cbn [length replicate setKeys].
  destruct (decide (0%nat = 1%nat)); [discriminate|].
  destruct (decide (l3proto = TableFamilyIPv4));
    destruct (decide (l3proto = TableFamilyIPv6)); reflexivity.
Qed.

(** X6. Under a family other than IPv4 and IPv6, a list of two entries or
    more never meets the unknown-family check of processAddrList: the
    entries are not read, the list expression builder is called, and its
    rule comes with one set element per entry whose key is nil. *)
Theorem X6_processAddrList_other_family (l3proto : TableFamily) (offset : Z)
    (lst : list (option IPAddr)) (excl : bool) (set : NftSet) :
  l3proto <> TableFamilyIPv4 -> l3proto <> TableFamilyIPv6 ->
  (2 <= length lst)%nat ->
  processAddrList'' l3proto offset lst excl set
  = match getExprForListIP l3proto set offset excl with
    | Ok re => Ok (mkNftRule re, replicate (length lst) zeroSetElement)
    | Err err => Err err
    | Panic => Panic
    end.
Proof.
  intros H4 H6 Hlen. unfold processAddrList.
  destruct (decide (length lst = 1%nat)); [lia|].
  destruct (decide (l3proto = TableFamilyIPv4)); [contradiction|].
  destruct (decide (l3proto = TableFamilyIPv6)); [contradiction|].
  cbn [bind]. rewrite length_replicate.
  destruct (decide (length lst = 0%nat)); [lia|]. reflexivity.
Qed.

(** X7. The set elements processAddrList returns depend on the family and
    on the list only: the Exclude flag, the offset and the set change the
    expressions, never the elements. *)
Theorem X7_set_elements_independent (l3proto : TableFamily)
    (lst : list (option IPAddr)) (offset1 offset2 : Z) (excl1 excl2 : bool)
    (set1 set2 : NftSet) (r1 r2 : NftRule) (els1 els2 : list SetElement) :
  processAddrList'' l3proto offset1 lst excl1 set1 = Ok (r1, els1) ->
  processAddrList'' l3proto offset2 lst excl2 set2 = Ok (r2, els2) ->
  els1 = els2.
Proof.
  unfold processAddrList.
  destruct (decide (length lst = 1%nat)).
  - destruct (getExprForSingleIP _ _ _ excl1); cbn [bind]; try discriminate.
    destruct (getExprForSingleIP _ _ _ excl2); cbn [bind]; try discriminate.
    intros [= _ <-] [= _ <-]. reflexivity.
  - destruct (if decide (l3proto = TableFamilyIPv4) then _ else _)
      as [se| |]; cbn [bind]; try discriminate.
    destruct (if decide (l3proto = TableFamilyIPv6) then _ else _)
      as [se'| |]; cbn [bind]; try discriminate.
    destruct (decide (length se' = 0%nat)); [discriminate|].
    destruct (getExprForListIP _ set1 _ _); cbn [bind]; try discriminate.
    destruct (getExprForListIP _ set2 _ _); cbn [bind]; try discriminate.
    intros [= _ <-] [= _ <-]. reflexivity.
Qed.

(** X8. An IPv4 address gives the same compilation whether the list holds
    it in 4 bytes or in the 16 bytes of its IPv4-mapped form: for a list
    of two entries or more, under IPv4 and under IPv6, the rule and the
    keys of the set elements are the same. *)
Theorem X8_mapped_form_same_keys (l3proto : TableFamily) (offset : Z)
    (lst lst16 : list (option IPAddr)) (ips : list IP) (excl : bool)
    (set : NftSet) :
  l3proto = TableFamilyIPv4 \/ l3proto = TableFamilyIPv6 ->
  (2 <= length lst)%nat ->
  Forall (fun ip => length ip = 4%nat) ips ->
  Forall2 (fun p ip => ipOf p = Ok ip) lst ips ->
  Forall2 (fun p ip => ipOf p = Ok ip) lst16 (map To16 ips) ->
  processAddrList'' l3proto offset lst16 excl set
  = processAddrList'' l3proto offset lst excl set.
Proof.
  intros Hfam Hlen H4 HF HF16.
  assert (Hlen16 : (2 <= length lst16)%nat).
  { rewrite (Forall2_length _ _ _ HF16), length_map,
      <- (Forall2_length _ _ _ HF). exact Hlen. }
  destruct Hfam as [-> | ->].
  - rewrite (processAddrList_many _ _ TableFamilyIPv4 To4 offset lst16
               (map To16 ips) excl set); [|left; now split|exact Hlen16|exact HF16].
    rewrite (processAddrList_many _ _ TableFamilyIPv4 To4 offset lst
               ips excl set); [|left; now split|exact Hlen|exact HF].
    rewrite map_map.
    replace (map (fun x => mkSetElement (To4 (To16 x)) []) ips)
      with (map (fun ip => mkSetElement (To4 ip) []) ips); [reflexivity|].
    apply map_ext_Forall. eapply Forall_impl; [exact H4|].
    intros ip Hip. simpl. now rewrite To4_of_To16, To4_four.
  - rewrite (processAddrList_many _ _ TableFamilyIPv6 To16 offset lst16
               (map To16 ips) excl set); [|right; now split|exact Hlen16|exact HF16].
    rewrite (processAddrList_many _ _ TableFamilyIPv6 To16 offset lst
               ips excl set); [|right; now split|exact Hlen|exact HF].
    rewrite map_map.
    replace (map (fun x => mkSetElement (To16 (To16 x)) []) ips)
      with (map (fun ip => mkSetElement (To16 ip) []) ips); [reflexivity|].
    apply map_ext_Forall. eapply Forall_impl; [exact H4|].
    intros ip Hip. simpl. now rewrite To16_of_To16.
Qed.

End CompilerCoverage.

(** X1, at a source rule under the inet family. *)
Lemma X1_createL3_unknown_family_witness :
  modelCreateL3 TableFamilyINet (srcRule [addrA; addrB]) sampleSet
  = (Err (ErrStr "unknown nftables.TableFamily 0x01"), sampleSet).
Proof.
  exact (X1_createL3_unknown_family modelSingleIP modelListIP modelRangeIP
           modelIPVersion TableFamilyINet (srcRule [addrA; addrB])
           (mkL3Rule (Some (listSpec [addrA; addrB])) None None None)
           sampleSet Source ltac:(discriminate) ltac:(discriminate)
           eq_refl eq_refl eq_refl).
Defined.

(** X2, at a destination specification with an empty list and half a
    range under IPv4: the compilation fails and the set has the IPv4 key
    type all the same. *)
Lemma X2_createL3_set_witness :
  fst (modelCreateL3 TableFamilyIPv4
         (mkRule (Some (mkL3Rule None
                          (Some (mkIPAddrSpec [] (mkAddr addrA, None))) None None))
            false) sampleSet)
  = Err (ErrStr "address list, address range and verdict are empry")
  /\ snd (modelCreateL3 TableFamilyIPv4
            (mkRule (Some (mkL3Rule None
                             (Some (mkIPAddrSpec [] (mkAddr addrA, None))) None None))
               false) sampleSet)
     = withKeyType sampleSet TypeIPAddr.
Proof.
  split; [reflexivity|].
  exact (proj2 (proj2 (proj2
           (X2_createL3_set modelSingleIP modelListIP modelRangeIP modelIPVersion
              TableFamilyIPv4
              (mkRule (Some (mkL3Rule None
                               (Some (mkIPAddrSpec [] (mkAddr addrA, None)))
                               None None)) false) sampleSet)))
           _ Destination eq_refl eq_refl eq_refl (or_introl eq_refl)).
Defined.

(** X3, at two destination addresses under IPv4. *)
Lemma X3_createL3_set_elements_witness :
  exists l3 d ruleAddr,
    L3 (dstRule [addrA; addrB]) = Some l3 /\ Version l3 = None
    /\ directionOf l3 = Some d /\ specOfDirection l3 d = Some ruleAddr
    /\ (TableFamilyIPv4 = TableFamilyIPv4 \/ TableFamilyIPv4 = TableFamilyIPv6)
    /\ (2 <= length (List_ ruleAddr))%nat
    /\ length [mkSetElement addrA []; mkSetElement addrB []]
       = length (List_ ruleAddr).
Proof.
  exact (X3_createL3_set_elements modelSingleIP modelListIP modelRangeIP
           modelIPVersion TableFamilyIPv4 (dstRule [addrA; addrB]) sampleSet
           (withKeyType sampleSet TypeIPAddr)
           (mkNftRule [expr.Payload 1 16 4; expr.Lookup 1 "ipv4rule-1" 1 false])
           [mkSetElement addrA []; mkSetElement addrB []]
           eq_refl ltac:(discriminate)).
Defined.

(** X4, at a destination list that comes with a range. *)
Lemma X4_list_before_range_witness :
  modelCreateL3 TableFamilyIPv4
    (mkRule (Some (mkL3Rule None
                     (Some (mkIPAddrSpec [mkAddr addrA] (mkAddr addrA, mkAddr addrB)))
                     None None)) false) sampleSet
  = modelCreateL3 TableFamilyIPv4 (dstRule [addrA]) sampleSet.
Proof.
  exact (proj1 (X4_list_before_range modelSingleIP modelListIP modelRangeIP
                  modelIPVersion TableFamilyIPv4 None [mkAddr addrA]
                  (mkAddr addrA, mkAddr addrB) (None, None) None false sampleSet
                  ltac:(discriminate))).
Defined.

(** X6, at two entries, one of them nil, under the inet family. *)
Lemma X6_processAddrList_other_family_witness :
  modelProcessAddrList TableFamilyINet 12 [mkAddr addrA; None] false sampleSet
  = match modelListIP TableFamilyINet sampleSet 12 false with
    | Ok re => Ok (mkNftRule re, replicate 2 zeroSetElement)
    | Err err => Err err
    | Panic => Panic
    end.
Proof.
  exact (X6_processAddrList_other_family modelSingleIP modelListIP
           TableFamilyINet 12 [mkAddr addrA; None] false sampleSet
           ltac:(discriminate) ltac:(discriminate) ltac:(simpl; lia)).
Defined.

(** X7, at 1.2.3.4 and 2.3.4.5 matched and excluded. *)
Lemma X7_set_elements_independent_witness :
  [mkSetElement addrA []; mkSetElement addrB []]
  = [mkSetElement addrA []; mkSetElement addrB []].
Proof.
  exact (X7_set_elements_independent modelSingleIP modelListIP TableFamilyIPv4
           (map mkAddr [addrA; addrB]) 12 16 false true sampleSet sampleSet
           (mkNftRule [expr.Payload 1 12 4; expr.Lookup 1 "ipv4rule-1" 1 false])
           (mkNftRule [expr.Payload 1 16 4; expr.Lookup 1 "ipv4rule-1" 1 true])
           _ _ eq_refl eq_refl).
Defined.

(** X8, at 1.2.3.4 and 2.3.4.5 in both forms under IPv4. *)
Lemma X8_mapped_form_same_keys_witness :
  modelProcessAddrList TableFamilyIPv4 16
    (map mkAddr (map To16 [addrA; addrB])) false sampleSet
  = modelProcessAddrList TableFamilyIPv4 16
      (map mkAddr [addrA; addrB]) false sampleSet.
Proof.
  apply (X8_mapped_form_same_keys modelSingleIP modelListIP TableFamilyIPv4 16
           (map mkAddr [addrA; addrB]) (map mkAddr (map To16 [addrA; addrB]))
           [addrA; addrB] false sampleSet).
  - now left.
  - simpl. lia.
  - repeat constructor.
  - apply ipOf_mkAddr.
  - apply ipOf_mkAddr.
Defined.

(** * Further properties of the chain store *)

Lemma tableOf_sameTable (t : Table) (c : Chain) : tableOf t c = sameTable c t.
Proof.
  unfold tableOf, sameTable. f_equal; apply bool_decide_ext; split; congruence.
Qed.

Lemma sameTable_eq (t : Table) (c : Chain) :
  sameTable c t = true <->
  TableName (ChainTable c) = TableName t /\ Family (ChainTable c) = Family t.
Proof.
  unfold sameTable. rewrite andb_true_iff, !bool_decide_eq_true. reflexivity.
Qed.

(** A chain [isEqualChain] accepts holds a chain and a rule store. *)
Lemma isEqualChain_holds (ch : nfChain) (attributes : option ChainAttributes) :
  isEqualChain ch attributes = true ->
  exists c r, chain ch = Some c /\ RulesInterface ch = Some r.
Proof.
  unfold isEqualChain.
  destruct (chain ch) as [c|]; [|discriminate].
  destruct (RulesInterface ch) as [r|]; [|discriminate].
  intros _. now exists c, r.
Qed.

(** What [create] does to the store and to the transport: nothing, or it
    stages one chain and stores the object that wraps it. *)
Lemma create_cases (name : string) (attributes : option ChainAttributes)
    (nfc nfc1 : nfChains) (r : option error) :
  create name attributes nfc = (r, nfc1) ->
  nfc1 = nfc
  \/ (r = None /\ chains nfc !! name = None
      /\ (forall a, attributes = Some a -> attrType a <> "")
      /\ exists c,
           Name c = name /\ ChainTable c = table nfc
           /\ (forall a, attributes = Some a ->
                 Hooknum c = attrHook a /\ Priority c = attrPriority a
                 /\ Type_ c = attrType a)
           /\ (attributes = None -> Type_ c = "")
           /\ nfc1
              = mkNfChains
                  (mkNetNS (kernel (conn nfc)) (calls (conn nfc) ++ [CallAddChain c]))
                  (table nfc)
                  (<[name := mkNfChain (negb (isNil attributes)) (Some c)
                               (Some (newRules (table nfc) (Some c)))]>
                     (chains nfc))).
Proof.
  unfold create.
  destruct (chains nfc !! name) as [ch|] eqn:Hl.
  - destruct (isEqualChain ch attributes); intros [= _ <-]; now left.
  - destruct attributes as [a|].
    + unfold Validate. destruct (decide (attrType a = "")) as [He|Hne].
      * intros [= _ <-]. now left.
      * simpl. intros [= <- <-]. right.
        split; [reflexivity|]. split; [reflexivity|].
        split; [intros a' [= <-]; exact Hne|].
        eexists. split; [|split; [|split; [|split; [|reflexivity]]]];
          simpl; try reflexivity.
        -- intros a' [= <-]. now repeat split.
        -- discriminate.
    + simpl. intros [= <- <-]. right.
      split; [reflexivity|]. split; [reflexivity|].
      split; [discriminate|].
      eexists. split; [|split; [|split; [|split; [|reflexivity]]]];
        simpl; try reflexivity.
      discriminate.
Qed.

(** X9. For a name that is not in the store, Chain, Delete and DeleteImm
    fail with their not-found error at once: the store and the transport
    are left as they were, and DeleteImm neither commits nor waits. *)
Theorem X9_unknown_name (name : string) (nfc : nfChains) :
  chains nfc !! name = None ->
  Chain_ name nfc = Err (errChainDoesNotExist name)
  /\ Delete name nfc = (Some (errNoChain name), nfc)
  /\ forall (rt : Runtime) (fuel : nat),
       DeleteImm rt fuel name nfc = Some (Some (errNoChain name), nfc).
Proof.
  intros Hn. unfold Chain_, Delete, DeleteImm. rewrite Hn. repeat split.
Qed.

Lemma X9_unknown_name_witness :
  Delete "chain-1" (emptyStore quietKernel)
  = (Some (ErrStr "chain chain-1 does not exists"), emptyStore quietKernel).
Proof.
  exact (proj1 (proj2 (X9_unknown_name "chain-1" (emptyStore quietKernel) eq_refl))).
Defined.

(** X10. After a successful Create, Chain(name) returns a rule store that
    is not nil; after the Delete that follows, Chain(name) fails. *)
Theorem X10_create_chain_delete (name : string) (attributes : option ChainAttributes)
    (nfc nfc1 : nfChains) :
  Create name attributes nfc = (None, nfc1) ->
  (exists r, Chain_ name nfc1 = Ok (Some r))
  /\ (exists nfc2,
        Delete name nfc1 = (None, nfc2)
        /\ Chain_ name nfc2 = Err (errChainDoesNotExist name)).
Proof.
  unfold Create. intros Hc.
  destruct (create_ok _ _ _ _ Hc) as (_ & (ch & Hch & Heq) & _).
  destruct (isEqualChain_holds _ _ Heq) as (c & r & _ & Hr).
  split.
  - exists r. unfold Chain_. rewrite Hch, Hr. reflexivity.
  - unfold Delete. rewrite Hch. eexists. split; [reflexivity|].
    unfold Chain_. simpl. rewrite lookup_delete_eq. reflexivity.
Qed.

Lemma X10_create_chain_delete_witness :
  exists r, Chain_ "chain-1" (storeWith quietKernel "chain-1") = Ok (Some r).
Proof.
  exact (proj1 (X10_create_chain_delete "chain-1" None (emptyStore quietKernel)
                  (storeWith quietKernel "chain-1") eq_refl)).
Defined.

(** X11. Create of a new name followed by Delete brings the map of the
    store back to what it was; the transport has staged the chain and then
    its removal, and nothing else. *)
Theorem X11_create_delete_round_trip (name : string)
    (attributes : option ChainAttributes) (nfc nfc1 : nfChains) :
  chains nfc !! name = None ->
  Create name attributes nfc = (None, nfc1) ->
  exists c,
    Name c = name /\ ChainTable c = table nfc
    /\ Delete name nfc1
       = (None,
          mkNfChains
            (mkNetNS (kernel (conn nfc))
               (calls (conn nfc) ++ [CallAddChain c; CallDelChain (Some c)]))
            (table nfc) (chains nfc)).
Proof.
  unfold Create. intros Hn Hc.
  destruct (create_cases _ _ _ _ _ Hc)
    as [->|(_ & _ & _ & c & Hname & Ht & _ & _ & ->)].
  - destruct (create_ok _ _ _ _ Hc) as (_ & (ch & Hch & _) & _). congruence.
  - exists c. split; [exact Hname|]. split; [exact Ht|].
    unfold Delete. simpl. rewrite lookup_insert_eq. simpl.
    rewrite delete_insert_id by exact Hn.
    unfold DelChain, logCall. simpl. rewrite <- app_assoc. reflexivity.
Qed.

Lemma X11_create_delete_round_trip_witness :
  chains (snd (Delete "chain-1" (storeWith quietKernel "chain-1")))
  = chains (emptyStore quietKernel).
Proof.
  destruct (X11_create_delete_round_trip "chain-1" None (emptyStore quietKernel)
              (storeWith quietKernel "chain-1") eq_refl eq_refl)
    as (c & _ & _ & Hd).
  rewrite Hd. reflexivity.
Defined.

(** X12. create either leaves the store and the transport untouched, which
    it does whenever it returns an error and whenever the name is already
    stored, or it stages exactly one chain, named as asked and in the
    table of the store, and stores the object that wraps that very chain,
    tagged base when attributes were given. *)
Theorem X12_create_stages_what_it_stores (name : string)
    (attributes : option ChainAttributes) (nfc nfc1 : nfChains) (r : option error) :
  create name attributes nfc = (r, nfc1) ->
  (is_Some r \/ is_Some (chains nfc !! name) -> nfc1 = nfc)
  /\ (r = None -> chains nfc !! name = None ->
      exists c,
        Name c = name /\ ChainTable c = table nfc
        /\ calls (conn nfc1) = calls (conn nfc) ++ [CallAddChain c]
        /\ chains nfc1
           = <[name := mkNfChain (negb (isNil attributes)) (Some c)
                         (Some (newRules (table nfc) (Some c)))]> (chains nfc)).
Proof.
  intros Hc. split.
  - intros [[err ->]|[ch Hch]].
    + exact (create_error_unchanged _ _ _ _ _ Hc).
    + destruct r as [err|].
      * exact (create_error_unchanged _ _ _ _ _ Hc).
      * destruct (create_ok _ _ _ _ Hc) as (_ & _ & _ & Hsame). now apply (Hsame ch).
  - intros -> Hn.
    destruct (create_cases _ _ _ _ _ Hc)
      as [->|(_ & _ & _ & c & Hname & Ht & _ & _ & ->)].
    + destruct (create_ok _ _ _ _ Hc) as (_ & (ch & Hch & _) & _). congruence.
    + exists c. now repeat split.
Qed.

Lemma X12_create_stages_what_it_stores_witness :
  exists c,
    Name c = "chain-1" /\ ChainTable c = sampleTable
    /\ calls (conn (storeWith quietKernel "chain-1")) = [] ++ [CallAddChain c]
    /\ chains (storeWith quietKernel "chain-1")
       = <[ "chain-1" := mkNfChain false (Some c)
                           (Some (newRules sampleTable (Some c)))]> ∅.
Proof.
  exact (proj2 (X12_create_stages_what_it_stores "chain-1" None
                  (emptyStore quietKernel) (storeWith quietKernel "chain-1")
                  None eq_refl) eq_refl eq_refl).
Defined.

(** Every return of the loop of [DeleteImm] comes after a run of busy
    commits each followed by a tick, at a commit that is not busy or a
    wait that ends on the timer. *)
Lemma deleteImmLoop_returns (rt : Runtime) (timeout : Timer) (ticker : Ticker)
    (name : string) (ch : nfChain) :
  forall (fuel n : nat) (nfc nfc' : nfChains) (r : option error),
    deleteImmLoop rt timeout ticker name ch fuel n nfc = Some (r, nfc') ->
    exists k,
      (k < fuel)%nat
      /\ (forall j, (j < k)%nat ->
            busyAt nfc j = true /\ rt timeout ticker (n + j)%nat = CaseTick)
      /\ (busyAt nfc k = false \/ rt timeout ticker (n + k)%nat = CaseTimeout).
Proof.
  induction fuel as [|fuel IH]; intros n nfc nfc' r; [discriminate|].
  cbn [deleteImmLoop]. rewrite Flush_DelChain.
  assert (H0 : flushAt nfc 0
               = flushReply (kernel (conn nfc)) (countCalls isFlush (conn nfc))).
  { unfold flushAt. now rewrite Nat.add_0_r. }
  destruct (flushReply (kernel (conn nfc)) (countCalls isFlush (conn nfc)))
    as [err|] eqn:Hr.
  2:{ intros _. exists 0%nat. split; [lia|]. split; [intros j Hj; lia|].
      left. unfold busyAt. now rewrite H0. }
  destruct (errorsIs err EBUSY) eqn:Hb; simpl.
  2:{ intros _. exists 0%nat. split; [lia|]. split; [intros j Hj; lia|].
      left. unfold busyAt. now rewrite H0. }
  destruct (rt timeout ticker n) eqn:Hs.
  - intros _. exists 0%nat. split; [lia|]. split; [intros j Hj; lia|].
    right. now rewrite Nat.add_0_r.
  - intros H. destruct (IH _ _ _ _ H) as (k & Hk & Hrun & Hstop).
    exists (S k). split; [lia|]. split.
    + intros [|j] Hj.
      * split; [unfold busyAt; now rewrite H0, Hb|now rewrite Nat.add_0_r].
      * destruct (Hrun j ltac:(lia)) as [Hbj Htj]. split.
        -- unfold busyAt in *. now rewrite flushAt_after_attempt in Hbj.
        -- rewrite <- Htj. f_equal. lia.
    + destruct Hstop as [Hs'|Hs']; [left|right].
      * unfold busyAt in *. now rewrite flushAt_after_attempt in Hs'.
      * rewrite <- Hs'. f_equal. lia.
Qed.

(** X13. Whenever DeleteImm returns for a stored name, it has made k + 1
    attempts for some k: the first k commits failed busy and were each
    followed by a tick, and the last commit was not busy or the wait after
    it ended on the timer; the value returned is the reply to that last
    commit. It never gives up while the kernel is busy and the ticker
    fires first: then it is still running after any number of rounds. *)
Theorem X13_deleteImm_returns (rt : Runtime) (name : string) (nfc : nfChains)
    (ch : nfChain) :
  chains nfc !! name = Some ch ->
  (forall (fuel : nat) (r : option error) (nfc' : nfChains),
      DeleteImm rt fuel name nfc = Some (r, nfc') ->
      exists k,
        (k < fuel)%nat
        /\ (forall j, (j < k)%nat -> busyAt nfc j = true /\ tickAt rt j = true)
        /\ (busyAt nfc k = false \/ tickAt rt k = false)
        /\ r = flushAt nfc k
        /\ calls (conn nfc') = calls (conn nfc) ++ attempts (chain ch) (S k))
  /\ ((forall j, busyAt nfc j = true /\ tickAt rt j = true) ->
      forall fuel, DeleteImm rt fuel name nfc = None).
Proof.
  intros Hch.
  assert (Hinv : forall fuel r nfc',
            DeleteImm rt fuel name nfc = Some (r, nfc') ->
            exists k,
              (k < fuel)%nat
              /\ (forall j, (j < k)%nat -> busyAt nfc j = true /\ tickAt rt j = true)
              /\ (busyAt nfc k = false \/ tickAt rt k = false)
              /\ r = flushAt nfc k
              /\ calls (conn nfc') = calls (conn nfc) ++ attempts (chain ch) (S k)).
  { intros fuel r nfc'. unfold DeleteImm. rewrite Hch. intros H.
    destruct (deleteImmLoop_returns _ _ _ _ _ _ _ _ _ _ H) as (k & Hk & Hrun & Hstop).
    rewrite (deleteImmLoop_stops _ _ _ _ _ k fuel 0%nat nfc Hrun Hstop Hk) in H.
    injection H as <- <-.
    exists k. split; [exact Hk|]. split; [|split; [|split; reflexivity]].
    - intros j Hj. destruct (Hrun j Hj) as [Hb Ht]. split; [exact Hb|].
      unfold tickAt, deleteTimer, deleteTicker. simpl in Ht. now rewrite Ht.
    - destruct Hstop as [Hs|Hs]; [now left|right].
      unfold tickAt, deleteTimer, deleteTicker. simpl in Hs. now rewrite Hs. }
  split; [exact Hinv|].
  intros Hall fuel.
  destruct (DeleteImm rt fuel name nfc) as [[r nfc']|] eqn:H; [|reflexivity].
  destruct (Hinv _ _ _ H) as (k & _ & _ & [Hs|Hs] & _);
    destruct (Hall k) as [Hb Ht]; congruence.
Qed.

(** X13, at a delete that is busy twice and then accepted. *)
Lemma X13_deleteImm_returns_witness :
  exists k,
    (k < 3)%nat
    /\ (forall j, (j < k)%nat ->
          busyAt (storeWith (busyKernel 2) "chain-1") j = true
          /\ tickAt alwaysTick j = true)
    /\ (busyAt (storeWith (busyKernel 2) "chain-1") k = false
        \/ tickAt alwaysTick k = false)
    /\ None = flushAt (storeWith (busyKernel 2) "chain-1") k
    /\ calls (conn (snd (default (None, storeWith (busyKernel 2) "chain-1")
                           (DeleteImm alwaysTick 3 "chain-1"
                              (storeWith (busyKernel 2) "chain-1")))))
       = calls (conn (storeWith (busyKernel 2) "chain-1"))
         ++ attempts (Some (mkChain "chain-1" sampleTable None None "" None)) (S k).
Proof.
  exact (proj1 (X13_deleteImm_returns alwaysTick "chain-1"
                  (storeWith (busyKernel 2) "chain-1")
                  (mkNfChain false
                     (Some (mkChain "chain-1" sampleTable None None "" None))
                     (Some (newRules sampleTable
                              (Some (mkChain "chain-1" sampleTable None None "" None)))))
                  eq_refl) 3%nat None
           (snd (default (None, storeWith (busyKernel 2) "chain-1")
                   (DeleteImm alwaysTick 3 "chain-1"
                      (storeWith (busyKernel 2) "chain-1"))))
           eq_refl).
Defined.

(** What [Sync] keeps and what it adds, whatever it returns. *)
Lemma Sync_keeps (nfc nfc' : nfChains) (r : option error) :
  Sync nfc = (r, nfc') ->
  table nfc' = table nfc
  /\ (forall name ch,
         chains nfc !! name = Some ch -> chains nfc' !! name = Some ch)
  /\ (forall name ch',
         chains nfc !! name = None -> chains nfc' !! name = Some ch' ->
         exists c, sameTable c (table nfc) = true /\ Name c = name
                   /\ ch' = syncEntry (table nfc) c).
Proof.
  unfold Sync. destruct (ListChains (conn nfc)) as [[cs|err] conn'].
  - intros H. destruct (syncLoop_spec _ _ _ _ H) as (Ht & Hkeep & Hnew & _).
    simpl in *. split; [exact Ht|]. split; [exact Hkeep|].
    intros name ch' Hn Hs. destruct (Hnew name ch' Hn Hs) as (c & _ & Hc).
    now exists c.
  - intros [= <- <-]. simpl. split; [reflexivity|]. split; [tauto|].
    intros name ch' Hn Hs. congruence.
Qed.

Lemma wfStore_ext (a b : nfChains) :
  table b = table a -> chains b = chains a -> wfStore a -> wfStore b.
Proof. unfold wfStore. intros -> ->. tauto. Qed.

Lemma wfEntry_syncEntry (t : Table) (c : Chain) :
  sameTable c t = true -> wfEntry t (Name c) (syncEntry t c).
Proof.
  intros Hs. exists c, (newRules t (Some c)).
  repeat split; try assumption.
  unfold syncEntry, syncTag. simpl. intros Hb.
  apply andb_prop in Hb as [Hb _]. apply negb_true_iff in Hb.
  now apply bool_decide_eq_false in Hb.
Qed.

Lemma Sync_wf (nfc nfc' : nfChains) (r : option error) :
  wfStore nfc -> Sync nfc = (r, nfc') -> wfStore nfc'.
Proof.
  intros Hwf H. destruct (Sync_keeps _ _ _ H) as (Ht & Hkeep & Hnew).
  intros name ch' Hs. rewrite Ht.
  destruct (chains nfc !! name) as [ch|] eqn:Hold.
  - rewrite (Hkeep _ _ Hold) in Hs. injection Hs as <-. now apply Hwf.
  - destruct (Hnew _ _ Hold Hs) as (c & Hsame & <- & ->).
    now apply wfEntry_syncEntry.
Qed.

(** With every listed chain of the table already stored, the loop of
    [Sync] changes nothing. *)
Lemma syncLoop_in_step :
  forall (cs : list Chain) (nfc : nfChains),
    (forall c, c ∈ cs -> sameTable c (table nfc) = true ->
               is_Some (chains nfc !! Name c)) ->
    syncLoop cs nfc = (None, nfc).
Proof.
  induction cs as [|c cs IH]; intros nfc Hall; [reflexivity|].
  cbn [syncLoop].
  assert (Hrest : syncLoop cs nfc = (None, nfc)).
  { apply IH. intros c' Hin. apply Hall. now apply list_elem_of_further. }
  destruct (sameTable c (table nfc)) eqn:Hs; [|exact Hrest].
  destruct (Hall c (list_elem_of_here _ _) Hs) as [ch Hch]. rewrite Hch.
  exact Hrest.
Qed.

Lemma readyLoop_true (name : string) (t : Table) :
  forall cs : list Chain,
    readyLoop name cs t = true <->
    exists c, c ∈ cs /\ Name c = name /\ sameTable c t = true.
Proof.
  induction cs as [|c cs IH]; cbn [readyLoop].
  - split; [discriminate|]. intros (c & Hin & _). inversion Hin.
  - rewrite tableOf_sameTable.
    destruct (sameTable c t) eqn:Hs.
    + destruct (bool_decide (name = Name c)) eqn:Hn.
      * apply bool_decide_eq_true in Hn. split; [|reflexivity].
        intros _. exists c. split; [apply list_elem_of_here|]. now split.
      * apply bool_decide_eq_false in Hn. rewrite IH. split.
        -- intros (c' & Hin & Hc'). exists c'.
           split; [now apply list_elem_of_further|exact Hc'].
        -- intros (c' & Hin & Hname & Hs').
           apply elem_of_cons in Hin as [->|Hin]; [congruence|].
           now exists c'.
    + rewrite IH. split.
      * intros (c' & Hin & Hc'). exists c'.
        split; [now apply list_elem_of_further|exact Hc'].
      * intros (c' & Hin & Hname & Hs').
        apply elem_of_cons in Hin as [->|Hin]; [congruence|].
        now exists c'.
Qed.

(** Without a listed chain of the wanted name in the table of the store,
    the loop of [Exist] answers false and touches nothing. *)
Lemma existLoop_not_found (name : string) :
  forall (cs : list Chain) (nfc : nfChains),
    (forall c, c ∈ cs -> Name c = name -> sameTable c (table nfc) = false) ->
    existLoop name cs nfc = (false, nfc).
Proof.
  induction cs as [|c cs IH]; intros nfc Hall; [reflexivity|].
  cbn [existLoop].
  assert (Hrest : existLoop name cs nfc = (false, nfc)).
  { apply IH. intros c' Hin. apply Hall. now apply list_elem_of_further. }
  destruct (bool_decide (Name c = name)) eqn:Hn; [|exact Hrest].
  apply bool_decide_eq_true in Hn.
  fold (tableOf (table nfc) c). rewrite tableOf_sameTable.
  rewrite (Hall c (list_elem_of_here _ _) Hn). exact Hrest.
Qed.

(** The loop of [Exist] leaves the store as it was or as one [Sync] left
    it. *)
Lemma existLoop_state (name : string) :
  forall (cs : list Chain) (nfc nfc' : nfChains) (b : bool),
    existLoop name cs nfc = (b, nfc') -> nfc' = nfc \/ nfc' = snd (Sync nfc).
Proof.
  induction cs as [|c cs IH]; intros nfc nfc' b.
  - intros [= _ <-]. now left.
  - cbn [existLoop].
    destruct (bool_decide (Name c = name)); [|apply IH].
    destruct (_ && _); [|apply IH].
    destruct (Sync nfc) as [[err|] nfc1]; intros [= _ <-]; now right.
Qed.

Section GetProperties.

Variable errnoText : Z -> string.

(** The loop of [Get]: the table of the store stays, no stored object is
    lost or changed, and the names returned are the slice built so far
    followed by the names of the listed chains of the table, in order. *)
Lemma getLoop_spec :
  forall (cs : list Chain) (acc : list string) (nfc nfc' : nfChains)
         (r : res (list string)),
    getLoop errnoText cs acc nfc = (r, nfc') ->
    table nfc' = table nfc
    /\ (forall name ch,
           chains nfc !! name = Some ch -> chains nfc' !! name = Some ch)
    /\ (wfStore nfc -> wfStore nfc')
    /\ (forall names, r = Ok names ->
          names = acc ++ map Name (List.filter (fun c => sameTable c (table nfc)) cs)).
Proof.
  induction cs as [|c cs IH]; intros acc nfc nfc' r.
  - simpl. intros [= <- <-]. repeat split; try tauto.
    intros names [= <-]. now rewrite app_nil_r.
  - cbn [getLoop List.filter]. rewrite tableOf_sameTable.
    destruct (sameTable c (table nfc)) eqn:Hs; [|apply IH].
    destruct (chains nfc !! Name c) as [ch|] eqn:Hl.
    + intros H. destruct (IH _ _ _ _ H) as (Ht & Hkeep & Hwf & Hn).
      repeat split; try assumption.
      intros names Hr. rewrite (Hn names Hr), <- app_assoc. reflexivity.
    + destruct (Sync nfc) as [[err|] nfc1] eqn:Hsync.
      * intros [= <- <-].
        destruct (Sync_keeps _ _ _ Hsync) as (Ht & Hkeep & _).
        repeat split; try assumption.
        -- intros Hwf. exact (Sync_wf _ _ _ Hwf Hsync).
        -- discriminate.
      * intros H. destruct (IH _ _ _ _ H) as (Ht & Hkeep & Hwf & Hn).
        destruct (Sync_keeps _ _ _ Hsync) as (Ht1 & Hkeep1 & _).
        split; [congruence|]. split; [|split].
        -- intros name ch Hch. apply Hkeep. now apply Hkeep1.
        -- intros Hw. apply Hwf. exact (Sync_wf _ _ _ Hw Hsync).
        -- intros names Hr. rewrite (Hn names Hr), <- app_assoc, Ht1.
           reflexivity.
Qed.

Lemma getLoop_in_step :
  forall (cs : list Chain) (acc : list string) (nfc : nfChains),
    (forall c, c ∈ cs -> sameTable c (table nfc) = true ->
               is_Some (chains nfc !! Name c)) ->
    getLoop errnoText cs acc nfc
    = (Ok (acc ++ map Name (List.filter (fun c => sameTable c (table nfc)) cs)),
       nfc).
Proof.
  induction cs as [|c cs IH]; intros acc nfc Hall.
  - simpl. now rewrite app_nil_r.
  - cbn [getLoop List.filter]. rewrite tableOf_sameTable.
    assert (Hrest : forall acc',
              getLoop errnoText cs acc' nfc
              = (Ok (acc' ++ map Name
                       (List.filter (fun c => sameTable c (table nfc)) cs)), nfc)).
    { intros acc'. apply IH. intros c' Hin. apply Hall.
      now apply list_elem_of_further. }
    destruct (sameTable c (table nfc)) eqn:Hs; [|apply Hrest].
    destruct (Hall c (list_elem_of_here _ _) Hs) as [ch Hch]. rewrite Hch.
    rewrite Hrest, <- app_assoc. reflexivity.
Qed.

(** X14. Ready(name) lists the chains once and answers true exactly when
    the listing holds a chain of that name in the table of the store; an
    error of the listing is returned to the caller. It neither reads nor
    changes the map of the store. *)
Theorem X14_ready (name : string) (nfc : nfChains) :
  (forall err,
      nextListing nfc = inr err ->
      Ready name nfc
      = (Err err, withConn nfc (logCall CallListChains (conn nfc))))
  /\ (forall cs,
         nextListing nfc = inl cs ->
         exists b,
           Ready name nfc
           = (Ok b, withConn nfc (logCall CallListChains (conn nfc)))
           /\ (b = true <->
               exists c, c ∈ cs /\ Name c = name
                         /\ TableName (ChainTable c) = TableName (table nfc)
                         /\ Family (ChainTable c) = Family (table nfc))).
Proof.
  unfold Ready, ListChains. fold (nextListing nfc). split.
  - intros err ->. reflexivity.
  - intros cs ->. eexists. split; [reflexivity|].
    rewrite readyLoop_true. simpl.
    split; intros (c & Hin & Hn & Hs); exists c; (split; [exact Hin|]);
      (split; [exact Hn|]); now apply sameTable_eq.
Qed.

(** X15. When Get returns names, they are the names of the listed chains
    that belong to the table of the store, in the order of the listing and
    with its repetitions, whether the chains were in the store or not. An
    error of the listing is returned as it is. Whatever Get returns, no
    object of the store is lost or changed. *)
Theorem X15_get_names (nfc nfc' : nfChains) (r : res (list string)) :
  Get errnoText nfc = (r, nfc') ->
  table nfc' = table nfc
  /\ (forall name ch,
         chains nfc !! name = Some ch -> chains nfc' !! name = Some ch)
  /\ (forall names,
         r = Ok names ->
         exists cs,
           nextListing nfc = inl cs
           /\ names = map Name (List.filter (fun c => sameTable c (table nfc)) cs))
  /\ (forall err, nextListing nfc = inr err -> r = Err err).
Proof.
  unfold Get, ListChains. fold (nextListing nfc).
  destruct (nextListing nfc) as [cs|err].
  - intros H. destruct (getLoop_spec _ _ _ _ _ H) as (Ht & Hkeep & _ & Hn).
    simpl in *. repeat split; try assumption.
    + intros names Hr. exists cs. split; [reflexivity|]. exact (Hn names Hr).
    + discriminate.
  - intros [= <- <-]. simpl. repeat split; try tauto.
    + discriminate.
    + now intros err' [= <-].
Qed.

(** X16. When every listed chain of the table is already in the store,
    Sync and Get only list the chains: Sync returns nil, Get returns the
    names, and both leave the store as it was. *)
Theorem X16_in_step (nfc : nfChains) (cs : list Chain) :
  nextListing nfc = inl cs ->
  (forall c, c ∈ cs -> sameTable c (table nfc) = true ->
             is_Some (chains nfc !! Name c)) ->
  Sync nfc = (None, withConn nfc (logCall CallListChains (conn nfc)))
  /\ Get errnoText nfc
     = (Ok (map Name (List.filter (fun c => sameTable c (table nfc)) cs)),
        withConn nfc (logCall CallListChains (conn nfc))).
Proof.
  intros Hl Hall. unfold Sync, Get, ListChains. fold (nextListing nfc).
  rewrite Hl. split.
  - now apply syncLoop_in_step.
  - now rewrite getLoop_in_step.
Qed.

End GetProperties.

(** X17. For a name that is not in the store and a listing that succeeds,
    Exist answers true exactly when the listing holds a chain of that name
    in the table of the store and the Sync it then runs returns nil. When
    the listing holds no such chain, Exist answers false after that one
    listing and leaves the store as it was. *)
Theorem X17_exist_characterised (name : string) (nfc : nfChains) (cs : list Chain) :
  chains nfc !! name = None ->
  nextListing nfc = inl cs ->
  (fst (Exist name nfc) = true <->
   (exists c, c ∈ cs /\ Name c = name /\ sameTable c (table nfc) = true)
   /\ fst (Sync (withConn nfc (logCall CallListChains (conn nfc)))) = None)
  /\ ((forall c, c ∈ cs -> Name c = name -> sameTable c (table nfc) = false) ->
      Exist name nfc
      = (false, withConn nfc (logCall CallListChains (conn nfc)))).
Proof.
  intros Hn Hl. unfold Exist, ListChains. fold (nextListing nfc).
  rewrite Hn, Hl. set (nfc1 := withConn nfc (logCall CallListChains (conn nfc))).
  assert (Hnone : (forall c, c ∈ cs -> Name c = name ->
                             sameTable c (table nfc) = false) ->
                  existLoop name cs nfc1 = (false, nfc1)).
  { intros Hall. now apply existLoop_not_found. }
  split; [|exact Hnone].
  destruct (readyLoop name cs (table nfc)) eqn:Hr;
    [apply readyLoop_true in Hr; rename Hr into Hex
    |assert (Hnex : ~ exists c, c ∈ cs /\ Name c = name
                                /\ sameTable c (table nfc) = true)
       by (intros Hex; apply readyLoop_true in Hex; congruence)].
  - rewrite existLoop_found.
    + simpl. destruct (fst (Sync nfc1)); split; try tauto; try discriminate.
      intros [_ H]. discriminate.
    + destruct Hex as (c & Hin & Hname & Hs). exists c.
      apply sameTable_eq in Hs. now repeat split.
  - rewrite Hnone.
    + simpl. split; [discriminate|]. intros [Hex _]. contradiction.
    + intros c Hin Hname. destruct (sameTable c (table nfc)) eqn:Hs; [|reflexivity].
      exfalso. apply Hnex. now exists c.
Qed.

Lemma create_wf (name : string) (attributes : option ChainAttributes)
    (nfc nfc1 : nfChains) (r : option error) :
  wfStore nfc -> create name attributes nfc = (r, nfc1) -> wfStore nfc1.
Proof.
  intros Hwf Hc.
  destruct (create_cases _ _ _ _ _ Hc)
    as [->|(_ & _ & Hty & c & Hname & Ht & Hattr & _ & ->)]; [exact Hwf|].
  intros n ch. simpl. intros Hs.
  destruct (decide (name = n)) as [<-|Hne].
  - rewrite lookup_insert_eq in Hs. injection Hs as <-.
    exists c, (newRules (table nfc) (Some c)).
    split; [reflexivity|]. split; [reflexivity|]. split; [exact Hname|].
    split; [apply sameTable_eq; now rewrite Ht|].
    simpl. destruct attributes as [a|]; [|discriminate].
    intros _. destruct (Hattr a eq_refl) as (_ & _ & ->). now apply Hty.
  - rewrite lookup_insert_ne in Hs by exact Hne. now apply Hwf.
Qed.

(** X18. Every operation of the store keeps its objects in shape: each
    stored object holds a chain and a rule store, the chain bears the name
    it is stored under and belongs to the table of the store, and a chain
    tagged base has a type. The empty store is in shape, and Create,
    CreateImm, Delete, DeleteImm, Sync, Exist, Get and Ready keep it so,
    whatever they return; Chain then never returns a nil rule store. *)
Theorem X18_store_shape (errnoText : Z -> string) (name : string)
    (attributes : option ChainAttributes) (nfc : nfChains) :
  wfStore nfc ->
  wfStore (snd (Create name attributes nfc))
  /\ wfStore (snd (CreateImm name attributes nfc))
  /\ wfStore (snd (Delete name nfc))
  /\ (forall rt fuel r nfc',
         DeleteImm rt fuel name nfc = Some (r, nfc') -> wfStore nfc')
  /\ wfStore (snd (Sync nfc))
  /\ wfStore (snd (Exist name nfc))
  /\ wfStore (snd (Get errnoText nfc))
  /\ wfStore (snd (Ready name nfc))
  /\ (forall r, Chain_ name nfc = Ok r -> is_Some r).
Proof.
  intros Hwf.
  assert (Hconn : forall c, wfStore (withConn nfc c)).
  { intros c. now apply (wfStore_ext nfc). }
  assert (Hdel : wfStore (mkNfChains (conn nfc) (table nfc) (delete name (chains nfc)))).
  { intros n ch. simpl. intros Hs. apply lookup_delete_Some in Hs as [_ Hs].
    now apply Hwf. }
  split; [|split; [|split; [|split; [|split; [|split; [|split; [|split]]]]]]].
  - unfold Create. destruct (create name attributes nfc) as [r nfc1] eqn:Hc.
    exact (create_wf _ _ _ _ _ Hwf Hc).
  - unfold CreateImm. destruct (create name attributes nfc) as [r nfc1] eqn:Hc.
    pose proof (create_wf _ _ _ _ _ Hwf Hc) as Hwf1.
    destruct r as [err|]; [exact Hwf1|].
    destruct (Flush (conn nfc1)) as [[err|] conn']; simpl;
      now apply (wfStore_ext nfc1).
  - unfold Delete. destruct (chains nfc !! name) as [ch|]; [|exact Hwf].
    simpl. now apply (wfStore_ext (mkNfChains (conn nfc) (table nfc)
                                     (delete name (chains nfc)))).
  - intros rt fuel r nfc'. unfold DeleteImm.
    destruct (chains nfc !! name) as [ch|].
    + intros H.
      destruct (deleteImmLoop_returns _ _ _ _ _ _ _ _ _ _ H) as (k & Hk & Hrun & Hstop).
      rewrite (deleteImmLoop_stops _ _ _ _ _ k fuel 0%nat nfc Hrun Hstop Hk) in H.
      injection H as _ <-.
      destruct (flushAt nfc k).
      * now apply (wfStore_ext nfc).
      * now apply (wfStore_ext (mkNfChains (conn nfc) (table nfc)
                                  (delete name (chains nfc)))).
    + intros [= _ <-]. exact Hwf.
  - destruct (Sync nfc) as [r nfc'] eqn:Hs. exact (Sync_wf _ _ _ Hwf Hs).
  - unfold Exist. destruct (chains nfc !! name) as [ch|]; [exact Hwf|].
    destruct (ListChains (conn nfc)) as [[cs|err] conn']; [|now apply Hconn].
    destruct (existLoop name cs (withConn nfc conn')) as [b nfc'] eqn:He.
    destruct (existLoop_state _ _ _ _ _ He) as [->| ->]; [now apply Hconn|].
    destruct (Sync (withConn nfc conn')) as [r nfc2] eqn:Hs.
    exact (Sync_wf _ _ _ (Hconn conn') Hs).
  - unfold Get. destruct (ListChains (conn nfc)) as [[cs|err] conn'];
      [|now apply Hconn].
    destruct (getLoop errnoText cs [] (withConn nfc conn')) as [r nfc'] eqn:Hg.
    destruct (getLoop_spec _ _ _ _ _ _ Hg) as (_ & _ & Hw & _).
    now apply Hw.
  - unfold Ready. destruct (ListChains (conn nfc)) as [[cs|err] conn'];
      now apply Hconn.
  - intros r. unfold Chain_. destruct (chains nfc !! name) as [ch|] eqn:Hch;
      [|discriminate].
    intros [= <-]. destruct (Hwf _ _ Hch) as (c & r & _ & -> & _). eauto.
Qed.

Lemma wfStore_newChains (c : NetNS) (t : Table) : wfStore (newChains c t).
Proof. intros name ch. unfold newChains. simpl. now rewrite lookup_empty. Qed.

(** X18, at the empty sample store. *)
Lemma X18_store_shape_witness :
  wfStore (snd (Create "chain-1" None (emptyStore quietKernel)))
  /\ wfStore (snd (Sync (emptyStore quietKernel))).
Proof.
  pose proof (X18_store_shape (fun _ => "") "chain-1" None
                (emptyStore quietKernel)
                (wfStore_newChains _ _)) as (H1 & _ & _ & _ & H5 & _).
  exact (conj H1 H5).
Defined.

(** X19. For a name already in the store, Create conflicts whenever the
    tags disagree, nil attributes for a base chain and any attributes for
    a regular one, and whenever the hook or the priority of the attributes
    is another pointer than the stored one, even one to the same value, or
    the type differs. Nil attributes for a stored regular chain that holds
    its chain and its rule store succeed and change nothing. *)
Theorem X19_create_conflicts (name : string) (nfc : nfChains) (ch : nfChain) :
  chains nfc !! name = Some ch ->
  (baseChain ch = true ->
   Create name None nfc = (Some (errChainExists name (table nfc)), nfc))
  /\ (baseChain ch = false ->
      forall a, Create name (Some a) nfc
                = (Some (errChainExists name (table nfc)), nfc))
  /\ (forall a c,
         chain ch = Some c ->
         ptrEq (attrHook a) (Hooknum c) = false
         \/ ptrEq (attrPriority a) (Priority c) = false
         \/ attrType a <> Type_ c ->
         Create name (Some a) nfc
         = (Some (errChainExists name (table nfc)), nfc))
  /\ (forall c r,
         chain ch = Some c -> RulesInterface ch = Some r ->
         baseChain ch = false ->
         Create name None nfc = (None, nfc)).
Proof.
  intros Hch. unfold Create, create. rewrite Hch.
  split; [|split; [|split]].
  - intros Hb. unfold isEqualChain. rewrite Hb.
    destruct (chain ch); [|reflexivity]. destruct (RulesInterface ch); reflexivity.
  - intros Hb a. unfold isEqualChain. rewrite Hb.
    destruct (chain ch); [|reflexivity]. destruct (RulesInterface ch); reflexivity.
  - intros a c Hc Hdiff. unfold isEqualChain. rewrite Hc.
    destruct (RulesInterface ch); [|reflexivity].
    destruct (baseChain ch); simpl; [|reflexivity].
    destruct Hdiff as [H|[H|H]].
    + rewrite H. reflexivity.
    + rewrite H. simpl. rewrite orb_true_r. reflexivity.
    + rewrite (bool_decide_eq_false_2 _ H). simpl. rewrite orb_true_r. reflexivity.
  - intros c r Hc Hr Hb. unfold isEqualChain. rewrite Hc, Hr, Hb. reflexivity.
Qed.

(** X19, at a base chain created on the input hook and asked for again
    with the same hook value behind another pointer. *)
Lemma X19_create_conflicts_witness :
  Create "chain-1"
    (Some (mkChainAttributes ChainTypeFilter (Some (mkRef 200 1))
             (Some ChainPriorityFirst) "" (Some ChainPolicyDrop)))
    (snd (Create "chain-1" (Some attrsDrop) (emptyStore quietKernel)))
  = (Some (ErrStr "nftableslib: chain chain-1 already exist in table ipv4table"),
     snd (Create "chain-1" (Some attrsDrop) (emptyStore quietKernel))).
Proof.
  exact (proj1 (proj2 (proj2
           (X19_create_conflicts "chain-1"
              (snd (Create "chain-1" (Some attrsDrop) (emptyStore quietKernel)))
              (mkNfChain true
                 (Some (mkChain "chain-1" sampleTable (Some ChainHookInput)
                          (Some ChainPriorityFirst) ChainTypeFilter
                          (Some ChainPolicyDrop)))
                 (Some (newRules sampleTable
                          (Some (mkChain "chain-1" sampleTable (Some ChainHookInput)
                                   (Some ChainPriorityFirst) ChainTypeFilter
                                   (Some ChainPolicyDrop))))))
              eq_refl)))
           (mkChainAttributes ChainTypeFilter (Some (mkRef 200 1))
              (Some ChainPriorityFirst) "" (Some ChainPolicyDrop))
           (mkChain "chain-1" sampleTable (Some ChainHookInput)
              (Some ChainPriorityFirst) ChainTypeFilter (Some ChainPolicyDrop))
           eq_refl (or_introl eq_refl)).
Defined.

(** X14, at a kernel that lists chain B of the sample table. *)
Lemma X14_ready_witness :
  exists b,
    Ready "B" (emptyStore (listingKernel [kernelChainB] (fun _ => None)))
    = (Ok b,
       withConn (emptyStore (listingKernel [kernelChainB] (fun _ => None)))
         (logCall CallListChains
            (conn (emptyStore (listingKernel [kernelChainB] (fun _ => None))))))
    /\ b = true.
Proof.
  destruct (proj2 (X14_ready "B"
                     (emptyStore (listingKernel [kernelChainB] (fun _ => None))))
              [kernelChainB] eq_refl) as (b & Hr & Hb).
  exists b. split; [exact Hr|]. apply Hb.
  exists kernelChainB. split; [apply list_elem_of_here|]. now repeat split.
Defined.

(** X15, at a kernel that lists B and C for an empty store. *)
Lemma X15_get_names_witness :
  exists cs,
    nextListing (emptyStore (listingKernel [kernelChainB; kernelChainC]
                               (fun _ => None))) = inl cs
    /\ ["B"; "C"]
       = map Name (List.filter (fun c => sameTable c sampleTable) cs).
Proof.
  exact (proj1 (proj2 (proj2
           (X15_get_names (fun _ => "")
              (emptyStore (listingKernel [kernelChainB; kernelChainC]
                             (fun _ => None)))
              (snd (Get (fun _ => "")
                      (emptyStore (listingKernel [kernelChainB; kernelChainC]
                                     (fun _ => None)))))
              (Ok ["B"; "C"]) eq_refl))) ["B"; "C"] eq_refl).
Defined.

(** X16, at a store that holds the one chain the kernel lists. *)
Lemma X16_in_step_witness :
  Sync (storeWith (listingKernel [kernelChainB] (fun _ => None)) "B")
  = (None,
     withConn (storeWith (listingKernel [kernelChainB] (fun _ => None)) "B")
       (logCall CallListChains
          (conn (storeWith (listingKernel [kernelChainB] (fun _ => None)) "B")))).
Proof.
  refine (proj1 (X16_in_step (fun _ => "")
                   (storeWith (listingKernel [kernelChainB] (fun _ => None)) "B")
                   [kernelChainB] eq_refl _)).
  intros c Hin _. apply list_elem_of_singleton in Hin as ->.
  eexists. reflexivity.
Defined.

(** X17, at a chain B the kernel lists and whose rules it lists too. *)
Lemma X17_exist_characterised_witness :
  fst (Exist "B" (emptyStore (listingKernel [kernelChainB] (fun _ => None))))
  = true.
Proof.
  apply (proj1 (X17_exist_characterised "B"
                  (emptyStore (listingKernel [kernelChainB] (fun _ => None)))
                  [kernelChainB] eq_refl eq_refl)).
  split; [|reflexivity].
  exists kernelChainB. split; [apply list_elem_of_here|]. now split.
Defined.

(** X20. A chain Sync has added can be asked for again: Create with nil
    attributes succeeds and changes nothing when Sync tagged the chain
    regular, and Create with the chain's own type, hook, priority and
    policy does when Sync tagged it base. A chain with a type whose hook
    is the pointer ChainHookPrerouting is tagged regular, so Create
    conflicts for every attributes given. *)
Theorem X20_sync_then_create (nfc nfc' : nfChains) (r : option error)
    (name : string) (ch' : nfChain) :
  Sync nfc = (r, nfc') ->
  chains nfc !! name = None ->
  chains nfc' !! name = Some ch' ->
  exists c,
    Name c = name /\ chain ch' = Some c /\ baseChain ch' = syncTag c
    /\ (syncTag c = false -> Create name None nfc' = (None, nfc'))
    /\ (syncTag c = true ->
        forall device,
          Create name
            (Some (mkChainAttributes (Type_ c) (Hooknum c) (Priority c) device
                     (Policy c))) nfc'
          = (None, nfc'))
    /\ (ptrEq (Hooknum c) (Some ChainHookPrerouting) = true ->
        forall a,
          Create name (Some a) nfc'
          = (Some (errChainExists name (table nfc')), nfc')).
Proof.
  intros Hs Hn Hs'.
  destruct (Sync_keeps _ _ _ Hs) as (_ & _ & Hnew).
  destruct (Hnew _ _ Hn Hs') as (c & _ & Hname & ->).
  exists c. split; [exact Hname|]. split; [reflexivity|]. split; [reflexivity|].
  unfold Create, create. rewrite Hs'. unfold isEqualChain, syncEntry. simpl.
  split; [|split].
  - intros ->. reflexivity.
  - intros -> device. simpl. rewrite !ptrEq_refl.
    rewrite bool_decide_eq_true_2 by reflexivity. simpl.
    destruct (Policy c) as [p|]; [|reflexivity].
    rewrite bool_decide_eq_false_2; [reflexivity|]. intros H. now apply H.
  - intros Hp a. unfold syncTag. rewrite Hp.
    destruct (bool_decide (Type_ c = "")); reflexivity.
Qed.

(** X20, at the NAT chain on the prerouting hook the kernel lists. *)
Lemma X20_sync_then_create_witness :
  Create "chain-2" (Some attrsNATPrerouting)
    (snd (Sync (emptyStore (listingKernel [kernelChainNAT] (fun _ => None)))))
  = (Some (ErrStr "nftableslib: chain chain-2 already exist in table ipv4table"),
     snd (Sync (emptyStore (listingKernel [kernelChainNAT] (fun _ => None))))).
Proof.
  destruct (X20_sync_then_create
              (emptyStore (listingKernel [kernelChainNAT] (fun _ => None)))
              (snd (Sync (emptyStore (listingKernel [kernelChainNAT] (fun _ => None)))))
              None "chain-2" (syncEntry sampleTable kernelChainNAT)
              eq_refl eq_refl eq_refl)
    as (c & _ & Hc & _ & _ & _ & H).
  injection Hc as <-. exact (H eq_refl attrsNATPrerouting).
Defined.
